(** * Boot-image import coordination (provisioningserver/rpc/boot_images.py)

    A shallow embedding of the RPC facade of the cluster controller:
    [list_boot_images], [get_hosts_from_sources], [_run_import],
    [import_boot_images] and [is_import_boot_images_running], together with
    the process-wide state they act on (the single-flight lock
    [concurrency.boot_images], [os.environ], the thread pool behind
    [deferToThread], the image store on disk and the cached configuration). *)

From stdpp Require Import base option list strings gmap sets fin_maps.
From Stdlib Require Import Ascii.

#[local] Set Warnings "-clear-no-such-hyp".

(** ** Python values used by the module *)

(** Exceptions travel as values: a call either returns or raises. *)
Inductive pyexc :=
| KeyError (key : string)
| OSError (path : string)
| Exc (msg : string).

Inductive result (A : Type) :=
| Returned (a : A)
| Raised (e : pyexc).
Arguments Returned {A} a.
Arguments Raised {A} e.

(** Sequencing of fallible calls: an exception skips the rest. *)
#[export] Instance result_ret : MRet result := λ A a, Returned a.
#[export] Instance result_bind : MBind result := λ A B k r,
  match r with
  | Returned a => k a
  | Raised e => Raised e
  end.

(** [d[key]] on a Python dict. *)
Definition getitem {V} (d : gmap string V) (key : string) : result V :=
  match d !! key with
  | Some v => Returned v
  | None => Raised (KeyError key)
  end.

(** A [for] loop whose body may raise: the first exception ends it. *)
Fixpoint for_each {A S} (body : S → A → result S) (items : list A) (s : S)
    : result S :=
  match items with
  | [] => Returned s
  | item :: rest => s' ← body s item; for_each body rest s'
  end.

(** What [urlparse] raises on a URL it rejects. *)
Definition ValueError : pyexc := Exc "ValueError".

(** One entry of [sources]: the code reads [source['url']] only; the
    remaining fields are passed through to the synchronisation engine. *)
Record source := Source {
  url : string;
  selections : list string
}.

(** A boot image descriptor as produced by [tftppath]. *)
Record boot_image := BootImage {
  architecture : string;
  subarchitecture : string;
  release : string;
  label : string;
  purpose : string
}.

(** A directory of the image store. *)
Inductive directory :=
| Unreadable
| Images (found : list boot_image).

(** The arguments of one [deferToThread(_run_import, sources,
    http_proxy=..., https_proxy=...)] call. *)
Record job := Job {
  job_sources : list source;
  job_http_proxy : option string;
  job_https_proxy : option string
}.

(** What [lock.run] hands back: the Deferred of the scheduled call, named
    by its position among all calls ever scheduled, or the lock's own
    "not started" value. *)
Inductive run_result :=
| Handle (n : nat)
| NotStarted.

(** ** Process-wide state *)

Record process := Process {
  lock_locked : bool;                      (* concurrency.boot_images.locked *)
  os_environ : gmap string string;         (* os.environ *)
  image_store : gmap string directory;     (* directories on disk, by path *)
  config_cache : result (gmap string (gmap string string));
                                           (* Config.load_from_cache() *)
  threadpool : list job;                   (* handed to deferToThread, not yet finished *)
  fired : list (result ())                 (* outcome fired on each Deferred, oldest first *)
}.

(** ** Collaborators outside the module *)

Class Collaborators := {
  (** [urlparse(u).hostname]; [urlparse] raises on a URL it rejects. *)
  urlparse_hostname : string → result (option string);
  (** [list(s)] for a set [s]: some enumeration of its members. *)
  set_to_list : gset string → list string;
  set_to_list_perm : ∀ s, set_to_list s ≡ₚ elements s;
  (** [provisioningserver.auth.get_maas_user_gpghome()] *)
  get_maas_user_gpghome : result string;
  (** [boot_resources.import_images(sources)]: reads and may change the
      environment and the image store, and may raise. *)
  import_images :
    list source → gmap string string → gmap string directory →
    result () * gmap string string * gmap string directory
}.

Section boot_images.
Context {cluster : Collaborators}.

(** ** [get_hosts_from_sources] *)

Definition add_host (hosts : gset string) (s : source)
    : result (gset string) :=
  hostname ← urlparse_hostname (url s);
  match hostname with
  | Some hostname => Returned ({[hostname]} ∪ hosts)
  | None => Returned hosts
  end.

Definition get_hosts_from_sources (sources : list source)
    : result (gset string) :=
  for_each add_host sources ∅.

(** The hostnames of the sources, as the specification words them: the
    hostname of each source URL that has one. *)
Definition source_hostnames (sources : list source) : gset string :=
  list_to_set
    (omap (λ s, match urlparse_hostname (url s) with
                | Returned hostname => hostname
                | Raised _ => None
                end) sources).

(** ** [_run_import] *)

Definition loopback_hosts : list string := ["localhost"; "127.0.0.1"; "::1"].

Definition no_proxy_hosts (sources : list source) : result (list string) :=
  hosts ← get_hosts_from_sources sources;
  Returned (loopback_hosts ++ set_to_list hosts).

(** The [variables] dict built at the top of [_run_import]; the hosts of
    the sources are computed after the proxies are entered, and an
    exception from there leaves no dict. *)
Definition import_variables (gpghome : string) (sources : list source)
    (http_proxy https_proxy : option string)
    : result (gmap string string) :=
  let variables : gmap string string := {[ "GNUPGHOME" := gpghome ]} in
  let variables :=
    match http_proxy with
    | Some p => <["http_proxy" := p]> variables
    | None => variables
    end in
  let variables :=
    match https_proxy with
    | Some p => <["https_proxy" := p]> variables
    | None => variables
    end in
  no_proxy_hosts ← no_proxy_hosts sources;
  Returned (<["no_proxy" := String.concat "," no_proxy_hosts]> variables).

(** Puts one variable back to what it was in [prior]: its value there, or
    its absence. *)
Definition restore_variable (prior : gmap string string) (name : string)
    (environ : gmap string string) : gmap string string :=
  match prior !! name with
  | Some v => <[name := v]> environ
  | None => delete name environ
  end.

(** Modelled from the spec: [provisioningserver.utils.env.environment_variables]
    is not among the sources.  The guard applies each override to the
    process environment, runs the operation, and on every exit path puts
    back the previous value, or the absence, of exactly those variables.
    The operation hands back its outcome, an exception included, as a
    value, so the one path below is every exit path. *)
Definition environment_variables {A} (variables : gmap string string)
    (body : gmap string string → A * gmap string string)
    (environ : gmap string string) : A * gmap string string :=
  let '(a, environ') := body (variables ∪ environ) in
  (a, foldr (restore_variable environ) environ' (elements (dom variables))).

(** [_run_import] is marked [@synchronous]: it runs on a thread of the
    pool, never in the caller of the facade. *)
Definition _run_import (j : job) (environ : gmap string string)
    (store : gmap string directory)
    : result () * gmap string string * gmap string directory :=
  match get_maas_user_gpghome with
  | Raised e => (Raised e, environ, store)
  | Returned gpghome =>
      match import_variables gpghome (job_sources j)
              (job_http_proxy j) (job_https_proxy j) with
      | Raised e => (Raised e, environ, store)
      | Returned variables =>
          let '(r, store', environ') :=
            environment_variables variables
              (λ scoped,
                 let '(r, scoped', store') :=
                   import_images (job_sources j) scoped store in
                 ((r, store'), scoped'))
              environ in
          (r, environ', store')
      end
  end.

(** The variables a job sets: the credential home and [no_proxy] always,
    a proxy variable when the job was given that proxy. *)
Definition sets_variable (j : job) (name : string) : Prop :=
  name = "GNUPGHOME" ∨ name = "no_proxy"
  ∨ (name = "http_proxy" ∧ is_Some (job_http_proxy j))
  ∨ (name = "https_proxy" ∧ is_Some (job_https_proxy j)).

(** ** The single-flight lock [concurrency.boot_images] *)

Definition with_lock (b : bool) (st : process) : process :=
  {| lock_locked := b; os_environ := os_environ st;
     image_store := image_store st; config_cache := config_cache st;
     threadpool := threadpool st; fired := fired st |}.

(** [deferToThread(_run_import, ...)]: the call joins the thread pool and
    its Deferred is returned at once. *)
Definition deferToThread (j : job) (st : process) : run_result * process :=
  (Handle (length (fired st) + length (threadpool st)),
   {| lock_locked := lock_locked st; os_environ := os_environ st;
      image_store := image_store st; config_cache := config_cache st;
      threadpool := threadpool st ++ [j]; fired := fired st |}).

(** Modelled from the spec: the lock object in [provisioningserver.concurrency]
    is not among the sources.  [run] on a held lock returns at once with a
    "not started" value and has no effect; on a free lock it becomes held
    and schedules the operation in one step, and the lock is released when
    the operation finishes (see [job_finishes]). *)
Definition lock_run (j : job) (st : process) : run_result * process :=
  if lock_locked st then (NotStarted, st)
  else deferToThread j (with_lock true st).

(** ** The facade *)

Definition import_boot_images (sources : list source)
    (http_proxy https_proxy : option string) (st : process)
    : result (option run_result) * process :=
  if negb (lock_locked st) then
    let '(r, st') := lock_run (Job sources http_proxy https_proxy) st in
    (Returned (Some r), st')
  else (Returned None, st).

Definition is_import_boot_images_running (st : process)
    : result bool * process :=
  (Returned (lock_locked st), st).

(** Modelled from the spec: [tftppath.list_boot_images] is not among the
    sources.  It scans the directory at the given root read-only; a missing
    or unreadable root is an error of the scan, a readable one yields the
    descriptors found there, none for an empty store. *)
Definition tftppath_list_boot_images (root : string)
    (store : gmap string directory) : result (list boot_image) :=
  match store !! root with
  | Some (Images found) => Returned found
  | Some Unreadable => Raised (OSError root)
  | None => Raised (OSError root)
  end.

Definition list_boot_images (st : process)
    : result (list boot_image) * process :=
  (config ← config_cache st;
   tftp ← getitem config "tftp";
   resource_root ← getitem tftp "resource_root";
   tftppath_list_boot_images resource_root (image_store st),
   st).

(** ** The background job *)

(** The oldest call in the thread pool runs to its end: its outcome fires
    on its Deferred.  Modelled from the spec, as part of the lock: the lock
    is released when the scheduled call finishes, whatever the outcome.
    What the job does to the environment and the store shows at this
    moment. *)
Definition job_finishes (st : process) : process :=
  match threadpool st with
  | [] => st
  | j :: waiting =>
      let '(r, environ', store') :=
        _run_import j (os_environ st) (image_store st) in
      {| lock_locked := false; os_environ := environ';
         image_store := store'; config_cache := config_cache st;
         threadpool := waiting; fired := fired st ++ [r] |}
  end.

(** ** Concurrent callers *)

(** A caller inside [import_boot_images]: before the test of
    [lock.locked], between the test and [lock.run], or returned. *)
Inductive caller :=
| AtTest (j : job)
| AtRun (j : job)
| Finished (r : result (option run_result)).

Definition caller_step (c : caller) (st : process) : caller * process :=
  match c with
  | AtTest j =>
      if negb (lock_locked st) then (AtRun j, st)
      else (Finished (Returned None), st)
  | AtRun j =>
      let '(r, st') := lock_run j st in (Finished (Returned (Some r)), st')
  | Finished _ => (c, st)
  end.

(** Two callers under a schedule: [true] lets the first one take its next
    step, [false] the second. *)
Fixpoint interleave (schedule : list bool) (c1 c2 : caller) (st : process)
    : caller * caller * process :=
  match schedule with
  | [] => (c1, c2, st)
  | true :: rest =>
      let '(c1', st') := caller_step c1 st in interleave rest c1' c2 st'
  | false :: rest =>
      let '(c2', st') := caller_step c2 st in interleave rest c1 c2' st'
  end.

(** How often a schedule lets a caller step. *)
Fixpoint turns (who : bool) (schedule : list bool) : nat :=
  match schedule with
  | [] => 0
  | b :: rest => (if bool_decide (b = who) then 1 else 0) + turns who rest
  end.

(** Steps a caller still has to take before it has returned. *)
Definition steps_left (c : caller) : nat :=
  match c with
  | AtTest _ => 2
  | AtRun _ => 1
  | Finished _ => 0
  end.

Definition proceeds (r : result (option run_result)) : Prop :=
  ∃ n, r = Returned (Some (Handle n)).

Definition skipped (r : result (option run_result)) : Prop :=
  r = Returned None ∨ r = Returned (Some NotStarted).

(** A caller that has not been answered with a handle: still inside the
    call for job [j], or returned with the skip value. *)
Definition not_started (c : caller) (j : job) : Prop :=
  c = AtTest j ∨ c = AtRun j ∨ ∃ r, c = Finished r ∧ skipped r.

Definition started (c : caller) : Prop :=
  ∃ r, c = Finished r ∧ proceeds r.

(** What holds all along a race of two callers for jobs [j1] and [j2] that
    began in state [st0] with the lock free: either the lock is free, no
    job was added and both callers are still inside the call, or the lock
    is held, exactly one job was added, its caller has its handle and the
    other caller has none. *)
Definition race (j1 j2 : job) (st0 : process)
    (c1 c2 : caller) (st : process) : Prop :=
  (lock_locked st = false ∧ threadpool st = threadpool st0
   ∧ (c1 = AtTest j1 ∨ c1 = AtRun j1) ∧ (c2 = AtTest j2 ∨ c2 = AtRun j2))
  ∨ (lock_locked st = true ∧ threadpool st = threadpool st0 ++ [j1]
     ∧ started c1 ∧ not_started c2 j2)
  ∨ (lock_locked st = true ∧ threadpool st = threadpool st0 ++ [j2]
     ∧ not_started c1 j1 ∧ started c2).

(** States in which the lock and the thread pool agree: held with exactly
    one call in flight, or free with none. *)
Definition consistent (st : process) : Prop :=
  if lock_locked st then length (threadpool st) = 1
  else threadpool st = [].

(** Fresh process state: the lock was just created and nothing runs. *)
Definition fresh_process (environ : gmap string string)
    (store : gmap string directory)
    (config : result (gmap string (gmap string string))) : process :=
  {| lock_locked := false; os_environ := environ; image_store := store;
     config_cache := config; threadpool := []; fired := [] |}.

End boot_images.

(** States a process can be in: fresh, or after the facade was called or a
    background job came to its end.  The two queries leave the state as it
    is and add nothing. *)
Inductive reachable {cluster : Collaborators} : process → Prop :=
| reachable_fresh environ store config :
    reachable (fresh_process environ store config)
| reachable_import st sources http_proxy https_proxy :
    reachable st →
    reachable (import_boot_images sources http_proxy https_proxy st).2
| reachable_finished st :
    reachable st → reachable (job_finishes st).

(** ** [urlparse(url).hostname] of Python 2.7, for concrete runs

    [urlsplit] takes the text before the first colon as the scheme when it
    is made of scheme characters and what follows is not a port number,
    reads the network location after a leading double slash up to the first
    of slash, question mark and hash, and raises ValueError when the
    network location has one of the two brackets without the other;
    [hostname] strips user information, brackets and port and lowers the
    case. *)
Module urlparse.

Definition scheme_chars : string :=
  "abcdefghijklmnopqrstuvwxyzABCDEFGHIJKLMNOPQRSTUVWXYZ0123456789+-.".

Fixpoint contains (c : ascii) (s : string) : bool :=
  match s with
  | EmptyString => false
  | String a s' => Ascii.eqb a c || contains c s'
  end.

Fixpoint all_in (allowed s : string) : bool :=
  match s with
  | EmptyString => true
  | String a s' => contains a allowed && all_in allowed s'
  end.

(** The text before the first character of [stops], and the text from that
    character on. *)
Fixpoint split_at (stops s : string) : string * string :=
  match s with
  | EmptyString => (EmptyString, EmptyString)
  | String a s' =>
      if contains a stops then (EmptyString, s)
      else let '(before, rest) := split_at stops s' in (String a before, rest)
  end.

(** [s.split(c)[-1]] *)
Fixpoint after_last (c : ascii) (s : string) : string :=
  match s with
  | EmptyString => EmptyString
  | String a s' =>
      if contains c s' then after_last c s'
      else if Ascii.eqb a c then s' else s
  end.

Definition lower_char (c : ascii) : ascii :=
  let n := nat_of_ascii c in
  if (65 <=? n)%nat && (n <=? 90)%nat then ascii_of_nat (n + 32) else c.

Fixpoint lower (s : string) : string :=
  match s with
  | EmptyString => EmptyString
  | String a s' => String (lower_char a) (lower s')
  end.

Definition netloc (url : string) : string :=
  let '(head, tail) := split_at ":" url in
  let url :=
    match head, tail with
    | String _ _, String _ rest =>
        if all_in scheme_chars head
           && (bool_decide (rest = EmptyString) || negb (all_in "0123456789" rest))
        then rest else url
    | _, _ => url
    end in
  match url with
  | String "/" (String "/" rest) => (split_at "/?#" rest).1
  | _ => EmptyString
  end.

Definition hostname (url : string) : result (option string) :=
  let whole := netloc url in
  if xorb (contains "[" whole) (contains "]" whole) then Raised ValueError
  else
    let netloc := after_last "@" whole in
    if contains "[" netloc && contains "]" netloc then
      match (split_at "]" netloc).1 with
      | String _ inside => Returned (Some (lower inside))
      | EmptyString => Returned (Some EmptyString)
      end
    else if contains ":" netloc
    then Returned (Some (lower (split_at ":" netloc).1))
    else if bool_decide (netloc = EmptyString) then Returned None
    else Returned (Some (lower netloc)).

End urlparse.

(** ** Concrete collaborators *)

(** A cluster controller whose credential home resolves and whose
    synchronisation engine succeeds without touching anything. *)
Definition quiet_cluster : Collaborators :=
  {| urlparse_hostname := urlparse.hostname;
     set_to_list := elements;
     set_to_list_perm := λ s, reflexivity (elements s);
     get_maas_user_gpghome := Returned "/var/lib/maas/gnupg";
     import_images := λ _ environ store, (Returned (), environ, store) |}.

(** An engine that always raises, after meddling with the environment. *)
Definition failing_engine : Collaborators :=
  {| urlparse_hostname := urlparse.hostname;
     set_to_list := elements;
     set_to_list_perm := λ s, reflexivity (elements s);
     get_maas_user_gpghome := Returned "/var/lib/maas/gnupg";
     import_images := λ _ environ store,
       (Raised (Exc "synchronisation failed"),
        <["GNUPGHOME" := "/tmp/elsewhere"]> (delete "no_proxy" environ),
        store) |}.

(** A cluster controller whose credential home cannot be resolved. *)
Definition homeless_cluster : Collaborators :=
  {| urlparse_hostname := urlparse.hostname;
     set_to_list := elements;
     set_to_list_perm := λ s, reflexivity (elements s);
     get_maas_user_gpghome := Raised (OSError "/var/lib/maas/gnupg");
     import_images := λ _ environ store, (Returned (), environ, store) |}.

Definition a_example : source := Source "http://a.example" [].
Definition b_example : source := Source "http://b.example" [].
Definition on_localhost : source := Source "http://localhost/images/" [].
Definition open_bracket : source := Source "http://[::1/" [].

Definition boot_resources_root : string := "/var/lib/maas/boot-resources/current".

(** A freshly started cluster controller with an empty image store. *)
Definition idle_process : process :=
  fresh_process
    {[ "PATH" := "/usr/bin"; "http_proxy" := "http://squid.internal:3128" ]}
    {[ boot_resources_root := Images [] ]}
    (Returned {[ "tftp" := {[ "resource_root" := boot_resources_root ]} ]}).

(** The same controller once an import through a proxy has been started. *)
Definition importing_process : process :=
  (import_boot_images [a_example] (Some "http://proxy.example:8000") None
     idle_process).2.

(** * Network configuration preseed (maasserver/networking_preseed.py) *)

(** ** Python text

    The module works on unicode text ([unicode_literals]); a character is
    a code point, here one below 256.  (Text that lxml hands out as a byte
    string is plain ASCII free of control characters, where byte strings
    and unicode text strip and lower alike.) *)
Module pytext.

Definition tab : string := String "009"%char EmptyString.
Definition newline : string := String "010"%char EmptyString.
Definition dquote : string := String "034"%char EmptyString.

(** [c.isspace()] *)
Definition isspace (c : ascii) : bool :=
  let n := nat_of_ascii c in
  ((9 <=? n) && (n <=? 13)) || ((28 <=? n) && (n <=? 32))
  || (n =? 133) || (n =? 160).

(** [c.lower()] *)
Definition lower_char (c : ascii) : ascii :=
  let n := nat_of_ascii c in
  if ((65 <=? n) && (n <=? 90))
     || ((192 <=? n) && (n <=? 222) && negb (n =? 215))
  then ascii_of_nat (n + 32) else c.

(** [c.upper() == c] *)
Definition unchanged_by_upper (c : ascii) : bool :=
  let n := nat_of_ascii c in
  negb (((97 <=? n) && (n <=? 122))
        || ((224 <=? n) && (n <=? 255) && negb (n =? 247))
        || (n =? 181)).

(** [c.lower() == c] *)
Definition unchanged_by_lower (c : ascii) : bool :=
  bool_decide (lower_char c = c).

Fixpoint all_chars (p : ascii → bool) (s : string) : bool :=
  match s with
  | EmptyString => true
  | String c s' => p c && all_chars p s'
  end.

(** [s.lower()] *)
Fixpoint lower (s : string) : string :=
  match s with
  | EmptyString => EmptyString
  | String c s' => String (lower_char c) (lower s')
  end.

(** [s.lstrip()] *)
Fixpoint lstrip (s : string) : string :=
  match s with
  | EmptyString => EmptyString
  | String c s' => if isspace c then lstrip s' else s
  end.

(** [s.rstrip()] *)
Fixpoint rstrip (s : string) : string :=
  match s with
  | EmptyString => EmptyString
  | String c s' =>
      match rstrip s' with
      | EmptyString => if isspace c then EmptyString else String c EmptyString
      | kept => String c kept
      end
  end.

(** [s.strip()] *)
Definition strip (s : string) : string := rstrip (lstrip s).

(** Text that does not begin with whitespace. *)
Definition starts_solid (s : string) : Prop :=
  match s with
  | EmptyString => True
  | String c _ => isspace c = false
  end.

End pytext.

Definition AssertionError : pyexc := Exc "AssertionError".
Definition UnresolvableHost : pyexc := Exc "UnresolvableHost".

(** [assert condition] *)
Definition assert (condition : bool) : result () :=
  if condition then Returned () else Raised AssertionError.

(** ** Addresses of [netaddr] *)

Inductive ip_family := IPv4 | IPv6.

(** [ip.version] *)
Definition family_number (f : ip_family) : nat :=
  match f with IPv4 => 4 | IPv6 => 6 end.

(** An [IPAddress]: two of them are equal when family and value are. *)
Record IPAddress := IP {
  ip_family_of : ip_family;
  ip_value : N
}.

#[export] Instance ip_family_eq_dec : EqDecision ip_family.
Proof. solve_decision. Defined.

#[export] Instance IPAddress_eq_dec : EqDecision IPAddress.
Proof. solve_decision. Defined.

#[export] Instance IPAddress_countable : Countable IPAddress.
Proof.
  refine (inj_countable'
            (λ ip, (bool_decide (ip_family_of ip = IPv4), ip_value ip))
            (λ p, IP (if p.1 then IPv4 else IPv6) p.2) _).
  by intros [[] v].
Defined.

Definition version (ip : IPAddress) : nat := family_number (ip_family_of ip).

(** What [netaddr] does with text. *)
Class Netaddr := {
  (** [IPAddress(text)], which raises on text that is no address *)
  parse_ip : string → result IPAddress;
  (** [unicode(ip)] *)
  ip_text : IPAddress → string;
  (** [unicode(IPNetwork("%s/%s" % (ip, netmask)))] *)
  ipnetwork_text : string → string → result string;
  (** iteration over a set of addresses: some enumeration of its members *)
  iter_ips : gset IPAddress → list IPAddress;
  iter_ips_perm : ∀ ips, iter_ips ips ≡ₚ elements ips
}.

#[export] Instance pyexc_eq_dec : EqDecision pyexc.
Proof. solve_decision. Defined.

Module networking_preseed.
Import pytext.

(** ** The data the module reads from the database *)

(** An element of the lshw document: the texts of its [logicalname] and
    [serial] children, as [element.xpath(...)] lists them; the text of an
    empty child is [None]. *)
Record xml_element := Element {
  logicalname : list (option string);
  serial : list (option string)
}.

(** [get_probed_details([node.system_id])] for the node: no entry, an
    entry without lshw output, or lshw output, given by what
    [etree.fromstring(lshw_xml).xpath("//node[@id='network']")] makes of
    it. *)
Inductive probed_details :=
| NotProbed
| NoLshw
| Lshw (network_nodes : result (list xml_element)).

(** A [NodeGroupInterface]. *)
Record NodeGroupInterface := ClusterInterface {
  ip : string;
  router_ip : option string;           (* None, the empty text, or an address *)
  manages_static_range : bool;
  network_version : ip_family;         (* network.version *)
  network_netmask : string             (* unicode(network.netmask) *)
}.

(** A [MACAddress]: [unicode(mac)] and [mac.get_cluster_interfaces()]. *)
Record MACAddress := MAC {
  mac_text : string;
  get_cluster_interfaces : list NodeGroupInterface
}.

(** A [StaticIPAddress] with its [macaddress_set.all()]. *)
Record StaticIPAddress := StaticIP {
  sip_ip : option string;
  sip_macaddress_set : list MACAddress
}.

(** A [NodeGroup], with what [get_dns_server_address(cluster, ipv4=...,
    ipv6=...)] answers for it. *)
Record NodeGroup := Cluster {
  get_dns_server_address : bool → bool → result (option string)
}.

Record Node := {
  disable_ipv4 : bool;
  nodegroup : NodeGroup;
  probed : probed_details;
  static_ip_addresses : list StaticIPAddress;
                          (* StaticIPAddress.objects.filter(macaddress__node=node) *)
  macaddress_set : list MACAddress
}.

(** The [ip] argument of [add_ip_to_mapping]: text or an [IPAddress]. *)
Inductive ip_argument :=
| IPText (text : string)
| IPObject (address : IPAddress).

#[export] Instance ip_argument_eq_dec : EqDecision ip_argument.
Proof. solve_decision. Defined.

(** A value in a [networks] entry. *)
Inductive entry_value :=
| Text (text : string)
| Routes (routes : list (gmap string string)).

(** The dict [generate_networking_config] returns: [provider], and the
    three lists of its [network_info]. *)
Record networking_config := Config {
  provider : string;
  services : list (gmap string string);
  networks : list (gmap string entry_value);
  links : list (gmap string string)
}.

(** ** lshw *)

Definition extract_network_interface_data (element : xml_element)
    : result (option string * option string) :=
  let interfaces := logicalname element in
  let macs := serial element in
  if bool_decide (length interfaces = 0) || bool_decide (length macs = 0)
  then Returned (None, None)
  else
    _ ← assert (bool_decide (length interfaces = 1));
    _ ← assert (bool_decide (length macs = 1));
    Returned (default None (interfaces !! 0), default None (macs !! 0)).

Definition normalise_mac (mac : string) : string := lower (strip mac).

Definition extract_network_interfaces (node : Node)
    : result (list (string * string)) :=
  match probed node with
  | NotProbed => Returned []
  | NoLshw => Returned []
  | Lshw parsed =>
      network_nodes ← parsed;
      interfaces ← mapM extract_network_interface_data network_nodes;
      Returned (omap (λ entry : option string * option string,
                    match entry with
                    | (Some interface, Some mac) =>
                        Some (interface, normalise_mac mac)
                    | _ => None
                    end) interfaces)
  end.

(** ** The networking preseed *)

Definition generate_ethernet_link_entry (interface mac : string)
    : gmap string string :=
  {[ "id" := interface; "type" := "phy"; "ethernet_mac_address" := mac ]}.

Definition generate_dns_server_entry (dns_address : string)
    : gmap string string :=
  {[ "type" := "dns"; "address" := dns_address ]}.

(** One [try: servers.append(get_dns_server_address(...)) except
    UnresolvableHost: pass]. *)
Definition append_dns_server (cluster : NodeGroup) (ipv4 ipv6 : bool)
    (servers : list (option string)) : result (list (option string)) :=
  match get_dns_server_address cluster ipv4 ipv6 with
  | Returned address => Returned (servers ++ [address])
  | Raised e =>
      if bool_decide (e = UnresolvableHost) then Returned servers
      else Raised e
  end.

Definition list_dns_servers (node : Node) : result (list string) :=
  let cluster := nodegroup node in
  servers ←
    (if negb (disable_ipv4 node) then append_dns_server cluster true false []
     else Returned []);
  servers ← append_dns_server cluster false true servers;
  Returned (omap id (servers : list (option string))).

Section with_netaddr.
Context {netaddr : Netaddr}.

Definition generate_route_entries (cluster_interface : NodeGroupInterface)
    : result (list (gmap string string)) :=
  match router_ip cluster_interface with
  | None => Returned []
  | Some router =>
      if bool_decide (router = "") then Returned []
      else
        address ← parse_ip (ip cluster_interface);
        if bool_decide (version address = 4) then
          Returned [ {[ "network" := "0.0.0.0"; "netmask" := "0.0.0.0";
                    "gateway" := router ]} ]
        else
          Returned [ {[ "network" := "::"; "netmask" := "::";
                    "gateway" := router ]} ]
  end.

Definition generate_network_entry (network_interface : string)
    (cluster_interface : NodeGroupInterface) (ip : option string)
    : result (gmap string entry_value) :=
  let network_types : gmap nat string := {[ 4 := "ipv4"; 6 := "ipv6" ]} in
  let network := family_number (network_version cluster_interface) in
  type ← match network_types !! network with
         | Some type => Returned type
         | None => Raised (KeyError "network.version")
         end;
  routes ← generate_route_entries cluster_interface;
  let entry : gmap string entry_value :=
    {[ "link" := Text network_interface; "type" := Text type;
       "routes" := Routes routes ]} in
  entry ←
    match ip with
    | Some ip =>
        if bool_decide (network = 4) then
          Returned (<["ip_address" := Text ip]> entry)
        else
          sized ← ipnetwork_text ip (network_netmask cluster_interface);
          Returned (<["ip_address" := Text sized]> entry)
    | None => Returned entry
    end;
  if bool_decide (network = 4) then
    Returned (<["netmask" := Text (network_netmask cluster_interface)]> entry)
  else Returned entry.

End with_netaddr.

Definition generate_networking_config (node : Node) : result networking_config :=
  interfaces ← extract_network_interfaces node;
  dns_servers ← list_dns_servers node;
  Returned {| provider := "MAAS";
          services := generate_dns_server_entry <$> dns_servers;
          networks := [];
          links := (λ entry : string * string,
                      generate_ethernet_link_entry entry.1 entry.2)
                   <$> interfaces |}.

(** ** Debian [/etc/network/interfaces] *)

Definition compose_debian_network_interfaces_ipv4_stanza (interface : string)
    : string :=
  "iface " +:+ interface +:+ " inet dhcp".

Definition compose_debian_network_interfaces_ipv6_stanza
    (interface ip : string) (gateway : option string) : string :=
  let lines :=
    [ "iface " +:+ interface +:+ " inet6 static";
      tab +:+ "netmask 64";
      tab +:+ "address " +:+ ip ] in
  let lines :=
    match gateway with
    | Some gateway => lines ++ [tab +:+ "gateway " +:+ gateway]
    | None => lines
    end in
  String.concat newline lines.

Definition extract_mac_string (mac : MACAddress) : string :=
  normalise_mac (mac_text mac).

(** [mapping[mac]] on a [defaultdict(set)]: a key that is missing is added
    with the empty set. *)
Definition defaultdict_getitem (mapping : gmap string (gset IPAddress))
    (mac : string) : gset IPAddress * gmap string (gset IPAddress) :=
  match mapping !! mac with
  | Some ips => (ips, mapping)
  | None => (∅, <[mac := ∅]> mapping)
  end.

Section mappings.
Context {netaddr : Netaddr}.

Definition add_ip_to_mapping (mapping : gmap string (gset IPAddress))
    (macaddress : MACAddress) (ip : option ip_argument)
    : result (gmap string (gset IPAddress)) :=
  match ip with
  | None => Returned mapping
  | Some ip =>
      if bool_decide (ip = IPText "") then Returned mapping
      else
        let mac := extract_mac_string macaddress in
        ip ← match ip with
             | IPText text => parse_ip text
             | IPObject address => Returned address
             end;
        let '(ips, mapping) := defaultdict_getitem mapping mac in
        Returned (<[mac := {[ip]} ∪ ips]> mapping)
  end.

(** The address that a text field of the database holds, if it holds
    one: the field is neither [None] nor empty and its text parses. *)
Definition holds_address (field : option string) (a : IPAddress) : Prop :=
  ∃ text, field = Some text ∧ text ≠ "" ∧ parse_ip text = Returned a.

Definition extract_ip (mapping : gmap string (gset IPAddress))
    (mac : string) (ip_version : nat)
    : option IPAddress * gmap string (gset IPAddress) :=
  let '(ips, mapping) := defaultdict_getitem mapping mac in
  (head (filter (λ ip, version ip = ip_version) (iter_ips ips)), mapping).

Definition map_static_ips (node : Node)
    : result (gmap string (gset IPAddress)) :=
  for_each
    (λ mapping sip,
       for_each
         (λ mapping mac,
            add_ip_to_mapping mapping mac (IPText <$> sip_ip sip))
         (sip_macaddress_set sip) mapping)
    (static_ip_addresses node) ∅.

Definition map_gateways (node : Node)
    : result (gmap string (gset IPAddress)) :=
  for_each
    (λ mapping mac,
       for_each
         (λ mapping cluster_interface,
            if manages_static_range cluster_interface then
              add_ip_to_mapping mapping mac
                (IPText <$> router_ip cluster_interface)
            else Returned mapping)
         (get_cluster_interfaces mac) mapping)
    (macaddress_set node) ∅.

Definition has_static_ipv6_address (mapping : gmap string (gset IPAddress))
    : bool :=
  existsb
    (λ ips, existsb (λ ip, bool_decide (version ip = 6)) (iter_ips ips))
    (map_to_list mapping).*2.

(** The body of the loop over the interfaces in
    [compose_debian_network_interfaces_file], on the stanzas so far and
    the two mappings. *)
Definition add_interface_stanzas (disable_ipv4 : bool)
    (state : list string * gmap string (gset IPAddress)
             * gmap string (gset IPAddress))
    (entry : string * string)
    : list string * gmap string (gset IPAddress)
      * gmap string (gset IPAddress) :=
  let '(stanzas, static_ips, gateways) := state in
  let '(interface, mac) := entry in
  let stanzas := stanzas ++ ["auto " +:+ interface] in
  let stanzas :=
    if negb disable_ipv4
    then stanzas ++ [compose_debian_network_interfaces_ipv4_stanza interface]
    else stanzas in
  let '(static_ipv6, static_ips) := extract_ip static_ips mac 6 in
  match static_ipv6 with
  | Some static_ipv6 =>
      let '(gateway, gateways) := extract_ip gateways mac 6 in
      (stanzas
         ++ [compose_debian_network_interfaces_ipv6_stanza interface
               (ip_text static_ipv6) (ip_text <$> gateway)],
       static_ips, gateways)
  | None => (stanzas, static_ips, gateways)
  end.

(** The [stanzas] list at the end of
    [compose_debian_network_interfaces_file]. *)
Definition debian_stanzas (node : Node) : result (list string) :=
  static_ips ← map_static_ips node;
  let disable_ipv4 :=
    disable_ipv4 node && has_static_ipv6_address static_ips in
  gateways ← map_gateways node;
  interfaces ← extract_network_interfaces node;
  Returned
    (foldl (add_interface_stanzas disable_ipv4)
       (["auto lo"], static_ips, gateways) interfaces).1.1.

Definition compose_debian_network_interfaces_file (node : Node)
    : result string :=
  stanzas ← debian_stanzas node;
  Returned (String.concat (newline +:+ newline) stanzas +:+ newline).

End mappings.

(** ** udev rules *)

Definition compose_udev_equality (key value : string) : result string :=
  _ ← assert (all_chars unchanged_by_upper key);
  Returned (key +:+ "==" +:+ dquote +:+ value +:+ dquote).

Definition compose_udev_attr_equality (attribute value : string)
    : result string :=
  _ ← assert (all_chars unchanged_by_lower attribute);
  Returned ("ATTR{" +:+ attribute +:+ "}==" +:+ dquote +:+ value +:+ dquote).

Definition compose_udev_setting (key value : string) : result string :=
  _ ← assert (all_chars unchanged_by_upper key);
  Returned (key +:+ "=" +:+ dquote +:+ value +:+ dquote).

Definition compose_udev_rule (interface mac : string) : result string :=
  subsystem ← compose_udev_equality "SUBSYSTEM" "net";
  action ← compose_udev_equality "ACTION" "add";
  drivers ← compose_udev_equality "DRIVERS" "?*";
  address ← compose_udev_attr_equality "address" mac;
  name ← compose_udev_setting "NAME" interface;
  Returned
    (String.concat ", " [subsystem; action; drivers; address; name]
     +:+ newline).

Definition compose_linux_udev_rules_file (interfaces : list (string * string))
    : result string :=
  rules ← mapM (λ entry : string * string,
                  compose_udev_rule entry.1 entry.2) interfaces;
  Returned
    ("# MAAS-assigned network interface names." +:+ newline
     +:+ String.concat (newline +:+ newline) rules +:+ newline
     +:+ "# End of MAAS-assigned network interface names." +:+ newline).

End networking_preseed.

(** ** Concrete data for the networking preseed *)

Module preseed_examples.
Import networking_preseed.

(** The addresses of the examples, in place of the parser of [netaddr]:
    any other text is no address. *)
Definition known_addresses : list (string * IPAddress) :=
  [ ("10.0.0.1", IP IPv4 167772161);
    ("10.0.0.2", IP IPv4 167772162);
    ("2001:db8::1", IP IPv6 1);
    ("2001:db8::5", IP IPv6 5) ].

Definition example_netaddr : Netaddr :=
  {| parse_ip := λ text,
       match list_find (λ entry : string * IPAddress, entry.1 = text)
               known_addresses with
       | Some (_, entry) => Returned entry.2
       | None => Raised (Exc "AddrFormatError")
       end;
     ip_text := λ a,
       match list_find (λ entry : string * IPAddress, entry.2 = a)
               known_addresses with
       | Some (_, entry) => entry.1
       | None => "?"
       end;
     ipnetwork_text := λ address netmask,
       Returned (address +:+ "/" +:+ netmask);
     iter_ips := elements;
     iter_ips_perm := λ ips, reflexivity (elements ips) |}.

Definition ipv6_interface : NodeGroupInterface :=
  ClusterInterface "2001:db8::1" (Some "2001:db8::1") true IPv6
    "ffff:ffff:ffff:ffff::".

Definition ipv4_interface : NodeGroupInterface :=
  ClusterInterface "10.0.0.1" (Some "") false IPv4 "255.255.255.0".

Definition routed_ipv4_interface : NodeGroupInterface :=
  ClusterInterface "10.0.0.1" (Some "10.0.0.2") true IPv4 "255.255.255.0".

Definition example_mac : MACAddress :=
  MAC " AA:BB:CC:DD:EE:FF " [ipv4_interface; ipv6_interface].

(** A node set to IPv6 only, with one network card that has a static IPv6
    address, and a second element in its lshw output that has no name. *)
Definition example_node : Node :=
  {| disable_ipv4 := true;
     nodegroup :=
       Cluster (λ ipv4 ipv6,
                  if ipv4 then Returned (Some "10.0.0.2")
                  else Raised UnresolvableHost);
     probed :=
       Lshw (Returned [ Element [Some "eth0"] [Some "AA:BB:CC:DD:EE:FF"];
                        Element [] [Some "00:11:22:33:44:55"] ]);
     static_ip_addresses := [ StaticIP (Some "2001:db8::5") [example_mac] ];
     macaddress_set := [ example_mac ] |}.

(** A node with IPv4 enabled on a cluster that has an IPv6 DNS server
    address only. *)
Definition ipv6_dns_node : Node :=
  {| disable_ipv4 := false;
     nodegroup :=
       Cluster (λ ipv4 ipv6,
                  if ipv4 then Raised UnresolvableHost
                  else Returned (Some "2001:db8::1"));
     probed := NotProbed;
     static_ip_addresses := [];
     macaddress_set := [] |}.

(** A node with IPv4 enabled on a cluster that has an IPv4 DNS server
    address only. *)
Definition ipv4_dns_node : Node :=
  {| disable_ipv4 := false;
     nodegroup :=
       Cluster (λ ipv4 ipv6,
                  if ipv4 then Returned (Some "10.0.0.2")
                  else Raised UnresolvableHost);
     probed := NotProbed;
     static_ip_addresses := [];
     macaddress_set := [] |}.

(** The same node with lshw output that names one card twice. *)
Definition twice_named_node : Node :=
  {| disable_ipv4 := true;
     nodegroup := nodegroup example_node;
     probed :=
       Lshw (Returned [ Element [Some "eth0"; Some "vmbr0"]
                          [Some "AA:BB:CC:DD:EE:FF"] ]);
     static_ip_addresses := static_ip_addresses example_node;
     macaddress_set := macaddress_set example_node |}.

Definition example_static_ips : gmap string (gset IPAddress) :=
  {[ "aa:bb:cc:dd:ee:ff" := {[ IP IPv6 5 ]} ]}.

Definition example_gateways : gmap string (gset IPAddress) :=
  {[ "aa:bb:cc:dd:ee:ff" := {[ IP IPv6 1 ]} ]}.

End preseed_examples.

(** * Properties *)

Example hostname_a_example :
  urlparse.hostname "http://a.example" = Returned (Some "a.example").
Proof. reflexivity. Qed.

Example hostname_cases :
  urlparse.hostname "HTTP://user:pw@Maas.Example:5240/images/?x#y"
  = Returned (Some "maas.example")
  ∧ urlparse.hostname "http://[::1]:80/" = Returned (Some "::1")
  ∧ urlparse.hostname "/srv/images" = Returned None
  ∧ urlparse.hostname "file:///srv/images" = Returned None
  ∧ urlparse.hostname "localhost:8080" = Returned None
  ∧ urlparse.hostname "http://localhost/images/" = Returned (Some "localhost")
  ∧ urlparse.hostname "http://[::1/" = Raised ValueError.
Proof. repeat split; reflexivity. Qed.

Section host_sets.
Context {cluster : Collaborators}.

Lemma for_each_app {A S} (body : S → A → result S) (items more : list A)
    (s : S) :
  for_each body (items ++ more) s
  = s' ← for_each body items s; for_each body more s'.
Proof.
  revert s. induction items as [|item items IH]; intros s; [done|].
  simpl. destruct (body s item) as [s'|e]; [|done]. simpl. apply IH.
Qed.

Lemma source_hostnames_cons (s : source) (sources : list source) :
  source_hostnames (s :: sources)
  = match urlparse_hostname (url s) with
    | Returned (Some hostname) => {[hostname]} ∪ source_hostnames sources
    | _ => source_hostnames sources
    end.
Proof.
  unfold source_hostnames. csimpl.
  by destruct (urlparse_hostname (url s)) as [[h|]|e].
Qed.

Lemma add_host_cases (hosts : gset string) (s : source) :
  add_host hosts s
  = match urlparse_hostname (url s) with
    | Returned (Some hostname) => Returned ({[hostname]} ∪ hosts)
    | Returned None => Returned hosts
    | Raised e => Raised e
    end.
Proof.
  unfold add_host. by destruct (urlparse_hostname (url s)) as [[h|]|e].
Qed.

Lemma for_each_cons {A S} (body : S → A → result S) (item : A)
    (items : list A) (s : S) :
  for_each body (item :: items) s
  = s' ← body s item; for_each body items s'.
Proof. reflexivity. Qed.

(** The loop of [get_hosts_from_sources] where every URL parses. *)
Lemma for_each_add_host (sources : list source) (hosts : gset string) :
  Forall (λ s, ∃ hostname, urlparse_hostname (url s) = Returned hostname)
    sources →
  for_each add_host sources hosts
  = Returned (hosts ∪ source_hostnames sources).
Proof.
  intros Hparse. revert hosts.
  induction Hparse as [|s sources [hostname Hs] _ IH]; intros hosts.
  - simpl. f_equal. unfold source_hostnames. simpl. set_solver.
  - rewrite for_each_cons, add_host_cases, source_hostnames_cons, Hs.
    destruct hostname as [h|]; simpl; rewrite IH; f_equal; set_solver.
Qed.

(** The loop ends with the exception of the first URL that does not
    parse. *)
Lemma for_each_add_host_raised (sources : list source) (hosts : gset string)
    (e : pyexc) :
  for_each add_host sources hosts = Raised e →
  Exists (λ s, urlparse_hostname (url s) = Raised e) sources.
Proof.
  revert hosts. induction sources as [|s sources IH]; intros hosts; [done|].
  rewrite for_each_cons, add_host_cases.
  destruct (urlparse_hostname (url s)) as [hostname|e'] eqn:Hs.
  - destruct hostname; simpl; intros Hloop;
      apply Exists_cons_tl; by eapply IH.
  - simpl. intros [= ->]. by apply Exists_cons_hd.
Qed.

Lemma for_each_add_host_returned (sources : list source)
    (hosts result : gset string) :
  for_each add_host sources hosts = Returned result →
  Forall (λ s, ∃ hostname, urlparse_hostname (url s) = Returned hostname)
    sources.
Proof.
  revert hosts. induction sources as [|s sources IH]; intros hosts; [done|].
  rewrite for_each_cons, add_host_cases.
  destruct (urlparse_hostname (url s)) as [hostname|e'] eqn:Hs; [|done].
  intros Hloop. apply Forall_cons. split; [by eexists|].
  destruct hostname; simpl in Hloop; by eapply IH.
Qed.

Lemma get_hosts_from_sources_spec (sources : list source)
    (hosts : gset string) :
  get_hosts_from_sources sources = Returned hosts
  ↔ Forall (λ s, ∃ hostname, urlparse_hostname (url s) = Returned hostname)
      sources
    ∧ hosts = source_hostnames sources.
Proof.
  unfold get_hosts_from_sources. split.
  - intros Hloop.
    pose proof (for_each_add_host_returned _ _ _ Hloop) as Hparse.
    split; [done|]. rewrite for_each_add_host in Hloop by done.
    injection Hloop as <-. set_solver.
  - intros [Hparse ->]. rewrite for_each_add_host by done.
    f_equal. set_solver.
Qed.

Lemma source_hostnames_perm (sources sources' : list source) :
  sources ≡ₚ sources' → source_hostnames sources = source_hostnames sources'.
Proof.
  intros Hp. unfold source_hostnames. apply set_eq. intros h.
  rewrite !elem_of_list_to_set. by rewrite Hp.
Qed.

Lemma elem_of_set_to_list (hosts : gset string) (h : string) :
  h ∈ set_to_list hosts ↔ h ∈ hosts.
Proof. rewrite set_to_list_perm. apply elem_of_elements. Qed.

Lemma NoDup_set_to_list (hosts : gset string) : NoDup (set_to_list hosts).
Proof. rewrite set_to_list_perm. apply NoDup_elements. Qed.

Lemma set_to_list_empty : set_to_list ∅ = [].
Proof.
  apply Permutation_nil_r. rewrite set_to_list_perm.
  by rewrite elements_empty.
Qed.

Lemma NoDup_loopback_hosts : NoDup loopback_hosts.
Proof. unfold loopback_hosts. repeat constructor; set_solver. Qed.

End host_sets.

Section no_proxy.
Context {cluster : Collaborators}.

Lemma no_proxy_hosts_spec (sources : list source) (hosts : list string) :
  no_proxy_hosts sources = Returned hosts
  ↔ Forall (λ s, ∃ hostname, urlparse_hostname (url s) = Returned hostname)
      sources
    ∧ hosts = loopback_hosts ++ set_to_list (source_hostnames sources).
Proof.
  unfold no_proxy_hosts. split.
  - destruct (get_hosts_from_sources sources) as [found|e] eqn:Hfound;
      [|done].
    apply get_hosts_from_sources_spec in Hfound as [Hparse ->].
    simpl. by intros [= <-].
  - intros [Hparse ->].
    by rewrite (proj2 (get_hosts_from_sources_spec sources _)
                  (conj Hparse eq_refl)).
Qed.

Lemma list_to_set_no_proxy_hosts (sources : list source) :
  list_to_set (loopback_hosts ++ set_to_list (source_hostnames sources))
  =@{gset string} list_to_set loopback_hosts ∪ source_hostnames sources.
Proof.
  rewrite list_to_set_app_L. f_equal.
  apply set_eq. intros h.
  by rewrite elem_of_list_to_set, elem_of_set_to_list.
Qed.

Lemma NoDup_no_proxy_hosts (sources : list source) :
  NoDup (loopback_hosts ++ set_to_list (source_hostnames sources))
  ↔ ∀ h, h ∈ loopback_hosts → h ∉ source_hostnames sources.
Proof.
  rewrite NoDup_app. split.
  - intros (_ & Hdisjoint & _) h Hh Hin.
    apply (Hdisjoint h Hh). by apply elem_of_set_to_list.
  - intros Hdisjoint. split; [apply NoDup_loopback_hosts|]. split.
    + intros h Hh Hin. apply (Hdisjoint h Hh). by apply elem_of_set_to_list.
    + apply NoDup_set_to_list.
Qed.

(** C6 (amended): the no-proxy host list is computed exactly when
    [urlparse] accepts the URL of every source; a URL it rejects makes the
    computation raise its ValueError.  When computed, the list is the
    three loopback hosts followed by the hostnames of the sources, each
    source hostname listed once; as a set it is the loopback hosts united
    with the hostnames of the source URLs that have one (a URL without
    hostname adds nothing), and permuting the sources leaves that set
    unchanged.  The list is free of duplicates exactly when no source
    hostname is itself one of the loopback hosts, as for the sources
    http://a.example and http://b.example, whose host set is exactly
    localhost, 127.0.0.1, ::1, a.example and b.example. *)
Theorem no_proxy_host_set (sources : list source) :
  ((∃ computed, no_proxy_hosts sources = Returned computed)
   ↔ Forall (λ s, ∃ hostname, urlparse_hostname (url s) = Returned hostname)
       sources)
  ∧ (∀ e, no_proxy_hosts sources = Raised e →
       get_hosts_from_sources sources = Raised e
       ∧ Exists (λ s, urlparse_hostname (url s) = Raised e) sources)
  ∧ (∀ s, urlparse_hostname (url s) = Returned None →
       get_hosts_from_sources (sources ++ [s]) = get_hosts_from_sources sources)
  ∧ (∀ computed, no_proxy_hosts sources = Returned computed →
       get_hosts_from_sources sources = Returned (source_hostnames sources)
       ∧ list_to_set computed
         =@{gset string} {["localhost"; "127.0.0.1"; "::1"]}
                         ∪ source_hostnames sources
       ∧ (∃ hosts : list string,
            computed = (["localhost"; "127.0.0.1"; "::1"] ++ hosts)%list
            ∧ NoDup hosts
            ∧ ∀ h, h ∈ hosts ↔ h ∈ source_hostnames sources)
       ∧ (NoDup computed
          ↔ ∀ h, h ∈ ["localhost"; "127.0.0.1"; "::1"] →
                 h ∉ source_hostnames sources)
       ∧ ∀ sources', sources ≡ₚ sources' →
           get_hosts_from_sources sources = get_hosts_from_sources sources'
           ∧ ∃ computed', no_proxy_hosts sources' = Returned computed'
                          ∧ computed ≡ₚ computed')
  ∧ (urlparse_hostname "http://a.example" = Returned (Some "a.example") →
     urlparse_hostname "http://b.example" = Returned (Some "b.example") →
       ∃ computed,
         no_proxy_hosts [a_example; b_example] = Returned computed
         ∧ list_to_set computed
           =@{gset string}
             {["localhost"; "127.0.0.1"; "::1"; "a.example"; "b.example"]}
         ∧ NoDup computed
         ∧ length computed = 5).
Proof.
  split; [|split; [|split; [|split]]].
  - split.
    + intros [computed Hc]. by apply no_proxy_hosts_spec in Hc as [? _].
    + intros Hparse. eexists. by apply no_proxy_hosts_spec.
  - intros e. unfold no_proxy_hosts.
    destruct (get_hosts_from_sources sources) as [found|e'] eqn:Hfound;
      [done|].
    simpl. intros [= ->]. split; [done|].
    by apply (for_each_add_host_raised sources ∅).
  - intros s Hs. unfold get_hosts_from_sources. rewrite for_each_app.
    destruct (for_each add_host sources ∅) as [hosts|e]; [|done].
    simpl. by rewrite add_host_cases, Hs.
  - intros computed Hc.
    apply no_proxy_hosts_spec in Hc as [Hparse ->].
    assert (get_hosts_from_sources sources
            = Returned (source_hostnames sources)) as Hhosts
      by (by apply get_hosts_from_sources_spec).
    split; [done|]. split; [|split; [|split]].
    + rewrite list_to_set_no_proxy_hosts. unfold loopback_hosts. set_solver.
    + exists (set_to_list (source_hostnames sources)).
      split; [done|]. split; [apply NoDup_set_to_list|].
      intros h. by rewrite elem_of_set_to_list.
    + apply NoDup_no_proxy_hosts.
    + intros sources' Hp.
      assert (Forall (λ s, ∃ hostname,
                        urlparse_hostname (url s) = Returned hostname)
                sources') as Hparse' by (by rewrite <- Hp).
      pose proof (source_hostnames_perm _ _ Hp) as Hsame.
      split.
      * rewrite Hhosts. symmetry. apply get_hosts_from_sources_spec.
        by rewrite Hsame.
      * eexists. split; [by apply no_proxy_hosts_spec|]. by rewrite Hsame.
  - intros Ha Hb.
    assert (source_hostnames [a_example; b_example]
            = {["a.example"; "b.example"]}) as Hhosts.
    { rewrite !source_hostnames_cons. simpl. rewrite Ha, Hb.
      unfold source_hostnames. simpl. set_solver. }
    eexists. split.
    { apply no_proxy_hosts_spec. split; [|done].
      repeat constructor; simpl; eauto. }
    rewrite Hhosts.
    assert (NoDup (loopback_hosts ++ set_to_list {["a.example"; "b.example"]}))
      as Hnodup.
    { rewrite <- Hhosts. apply NoDup_no_proxy_hosts. rewrite Hhosts.
      unfold loopback_hosts. intros h Hh Hin. set_unfold. naive_solver. }
    split; [|split; [done|]].
    + rewrite <- Hhosts, list_to_set_no_proxy_hosts, Hhosts.
      unfold loopback_hosts. set_solver.
    + rewrite length_app. simpl. rewrite set_to_list_perm. by vm_compute.
Qed.

End no_proxy.

Section scoped_environment.

Lemma lookup_restore_variable (prior environ : gmap string string)
    (name k : string) :
  restore_variable prior name environ !! k
  = if decide (k = name) then prior !! k else environ !! k.
Proof.
  unfold restore_variable. case_decide as Hk.
  - subst k. destruct (prior !! name) eqn:Hprior.
    + by rewrite lookup_insert_eq.
    + by rewrite lookup_delete_eq.
  - destruct (prior !! name).
    + by rewrite lookup_insert_ne.
    + by rewrite lookup_delete_ne.
Qed.

Lemma lookup_foldr_restore (prior environ : gmap string string)
    (names : list string) (k : string) :
  foldr (restore_variable prior) environ names !! k
  = if decide (k ∈ names) then prior !! k else environ !! k.
Proof.
  induction names as [|name names IH].
  - rewrite decide_False; [done | apply not_elem_of_nil].
  - cbn [foldr]. rewrite lookup_restore_variable, IH.
    repeat case_decide; set_solver.
Qed.

Lemma environment_variables_restores {A} (variables : gmap string string)
    (body : gmap string string → A * gmap string string)
    (environ : gmap string string) (k : string) :
  (environment_variables variables body environ).2 !! k
  = if decide (k ∈ dom variables) then environ !! k
    else (body (variables ∪ environ)).2 !! k.
Proof.
  unfold environment_variables.
  destruct (body (variables ∪ environ)) as [a environ']. simpl.
  rewrite lookup_foldr_restore.
  repeat case_decide; set_solver.
Qed.

Lemma environment_variables_outcome {A} (variables : gmap string string)
    (body : gmap string string → A * gmap string string)
    (environ : gmap string string) :
  (environment_variables variables body environ).1
  = (body (variables ∪ environ)).1.
Proof.
  unfold environment_variables.
  by destruct (body (variables ∪ environ)).
Qed.

End scoped_environment.

Section run_import.
Context {cluster : Collaborators}.

Lemma lookup_import_variables (gpghome : string) (sources : list source)
    (http_proxy https_proxy : option string)
    (variables : gmap string string) :
  import_variables gpghome sources http_proxy https_proxy
  = Returned variables →
  variables !! "GNUPGHOME" = Some gpghome
  ∧ (∃ hosts, no_proxy_hosts sources = Returned hosts
              ∧ variables !! "no_proxy" = Some (String.concat "," hosts))
  ∧ variables !! "http_proxy" = http_proxy
  ∧ variables !! "https_proxy" = https_proxy
  ∧ ∀ name, name ∉ ["GNUPGHOME"; "no_proxy"; "http_proxy"; "https_proxy"] →
      variables !! name = None.
Proof.
  unfold import_variables.
  destruct (no_proxy_hosts sources) as [hosts|e]; [|done].
  destruct http_proxy, https_proxy; simpl; intros [= <-];
    (split; [by simplify_map_eq|]);
    (split; [exists hosts; by simplify_map_eq|]);
    repeat split;
    try (intros name Hname;
         repeat (apply not_elem_of_cons in Hname as [? Hname]));
    by simplify_map_eq.
Qed.

(** The dict is built exactly when the host list is. *)
Lemma import_variables_cases (gpghome : string) (sources : list source)
    (http_proxy https_proxy : option string) :
  (∀ hosts, no_proxy_hosts sources = Returned hosts →
     ∃ variables,
       import_variables gpghome sources http_proxy https_proxy
       = Returned variables)
  ∧ (∀ e, no_proxy_hosts sources = Raised e ↔
          import_variables gpghome sources http_proxy https_proxy = Raised e).
Proof.
  unfold import_variables. split.
  - intros hosts ->. simpl. by eexists.
  - intros e. destruct (no_proxy_hosts sources); simpl; split; congruence.
Qed.

Lemma dom_import_variables (j : job) (gpghome name : string)
    (variables : gmap string string) :
  import_variables gpghome (job_sources j)
    (job_http_proxy j) (job_https_proxy j) = Returned variables →
  name ∈ dom variables ↔ sets_variable j name.
Proof.
  intros Hvariables.
  pose proof (lookup_import_variables gpghome (job_sources j)
                (job_http_proxy j) (job_https_proxy j) variables Hvariables)
    as (Hhome & (hosts & _ & Hno) & Hhttp & Hhttps & Hother).
  rewrite elem_of_dom. unfold sets_variable. split.
  - intros Hsome.
    destruct (decide (name ∈ ["GNUPGHOME"; "no_proxy"; "http_proxy"; "https_proxy"]))
      as [Hin|Hout].
    + set_unfold. destruct Hin as [->|[->|[->|[->|[]]]]]; auto.
      * right; right; left. by rewrite <- Hhttp.
      * right; right; right. by rewrite <- Hhttps.
    + rewrite (Hother _ Hout) in Hsome. by destruct Hsome.
  - intros [->|[->|[[-> Hp]|[-> Hp]]]].
    + by rewrite Hhome.
    + by rewrite Hno.
    + by rewrite Hhttp.
    + by rewrite Hhttps.
Qed.

(** The outcome of the job and the environment it leaves behind, when the
    credential home resolves and the dict of variables is built. *)
Lemma run_import_resolved (j : job) (gpghome : string)
    (variables environ : gmap string string)
    (store : gmap string directory) :
  get_maas_user_gpghome = Returned gpghome →
  import_variables gpghome (job_sources j)
    (job_http_proxy j) (job_https_proxy j) = Returned variables →
  let engine := import_images (job_sources j) (variables ∪ environ) store in
  (_run_import j environ store).1.1 = engine.1.1
  ∧ (_run_import j environ store).2 = engine.2
  ∧ ∀ k, (_run_import j environ store).1.2 !! k
         = if decide (k ∈ dom variables) then environ !! k
           else engine.1.2 !! k.
Proof.
  intros Hhome Hvariables. simpl. unfold _run_import.
  rewrite Hhome, Hvariables.
  set (body := λ scoped : gmap string string, _).
  pose proof (environment_variables_outcome variables body environ) as Hout.
  pose proof (environment_variables_restores variables body environ) as Hres.
  destruct (environment_variables variables body environ) as [[r store'] environ'].
  simpl in *. subst body. simpl in *.
  destruct (import_images (job_sources j) (variables ∪ environ) store)
    as [[r0 scoped'] store0].
  simpl in *. by simplify_eq.
Qed.

Lemma run_import_unresolved (j : job) (e : pyexc)
    (environ : gmap string string) (store : gmap string directory) :
  get_maas_user_gpghome = Raised e →
  _run_import j environ store = (Raised e, environ, store).
Proof. intros Hhome. unfold _run_import. by rewrite Hhome. Qed.

(** A source URL that [urlparse] rejects ends the job before the
    environment is touched and before the engine is called. *)
Lemma run_import_rejected (j : job) (gpghome : string) (e : pyexc)
    (environ : gmap string string) (store : gmap string directory) :
  get_maas_user_gpghome = Returned gpghome →
  import_variables gpghome (job_sources j)
    (job_http_proxy j) (job_https_proxy j) = Raised e →
  _run_import j environ store = (Raised e, environ, store).
Proof.
  intros Hhome Hvariables. unfold _run_import.
  by rewrite Hhome, Hvariables.
Qed.

(** C3: every variable the job sets (GNUPGHOME and no_proxy, and http_proxy
    and https_proxy when given) holds its value from before the job once
    the job is over, whatever the outcome of the job, an exception
    included; a variable that was absent before is absent again, not set
    to the empty string. *)
Theorem environment_restored (j : job) (environ : gmap string string)
    (store : gmap string directory) (name : string) :
  sets_variable j name →
  (_run_import j environ store).1.2 !! name = environ !! name
  ∧ (environ !! name = None →
       (_run_import j environ store).1.2 !! name = None
       ∧ (_run_import j environ store).1.2 !! name ≠ Some "").
Proof.
  intros Hset.
  assert ((_run_import j environ store).1.2 !! name = environ !! name) as Heq.
  { destruct get_maas_user_gpghome as [gpghome|e] eqn:Hhome.
    - destruct (import_variables gpghome (job_sources j)
                  (job_http_proxy j) (job_https_proxy j))
        as [variables|e] eqn:Hvariables.
      + destruct (run_import_resolved j gpghome variables environ store
                    Hhome Hvariables) as (_ & _ & Hlookup).
        rewrite Hlookup. rewrite decide_True; [done|].
        by apply (dom_import_variables j gpghome).
      + by rewrite (run_import_rejected j gpghome e environ store).
    - by rewrite (run_import_unresolved j e environ store Hhome). }
  split; [done|]. intros Habsent. rewrite Heq, Habsent. done.
Qed.

End run_import.

Section facade.
Context {cluster : Collaborators}.

Lemma import_boot_images_free (sources : list source)
    (http_proxy https_proxy : option string) (st : process) :
  lock_locked st = false →
  import_boot_images sources http_proxy https_proxy st
  = (Returned (Some (Handle (length (fired st) + length (threadpool st)))),
     {| lock_locked := true; os_environ := os_environ st;
        image_store := image_store st; config_cache := config_cache st;
        threadpool := threadpool st ++ [Job sources http_proxy https_proxy];
        fired := fired st |}).
Proof.
  intros Hfree. unfold import_boot_images, lock_run. by rewrite Hfree.
Qed.

Lemma import_boot_images_held (sources : list source)
    (http_proxy https_proxy : option string) (st : process) :
  lock_locked st = true →
  import_boot_images sources http_proxy https_proxy st = (Returned None, st).
Proof. intros Hheld. unfold import_boot_images. by rewrite Hheld. Qed.

Lemma job_finishes_head (st : process) (j : job) (waiting : list job) :
  threadpool st = j :: waiting →
  job_finishes st
  = {| lock_locked := false;
       os_environ := (_run_import j (os_environ st) (image_store st)).1.2;
       image_store := (_run_import j (os_environ st) (image_store st)).2;
       config_cache := config_cache st;
       threadpool := waiting;
       fired := fired st ++ [(_run_import j (os_environ st) (image_store st)).1.1] |}.
Proof.
  intros Hpool. unfold job_finishes. rewrite Hpool.
  by destruct (_run_import j (os_environ st) (image_store st)) as [[r e] s].
Qed.

Lemma consistent_import (sources : list source)
    (http_proxy https_proxy : option string) (st : process) :
  consistent st →
  consistent (import_boot_images sources http_proxy https_proxy st).2.
Proof.
  intros Hst. destruct (lock_locked st) eqn:Hlock.
  - by rewrite import_boot_images_held.
  - rewrite import_boot_images_free by done.
    unfold consistent in *. rewrite Hlock in Hst. simpl. by rewrite Hst.
Qed.

Lemma consistent_job_finishes (st : process) :
  consistent st → consistent (job_finishes st).
Proof.
  intros Hst. destruct (threadpool st) as [|j waiting] eqn:Hpool.
  - unfold job_finishes. by rewrite Hpool.
  - rewrite (job_finishes_head st j waiting Hpool).
    unfold consistent in *. simpl. rewrite Hpool in Hst.
    destruct (lock_locked st); [|done].
    destruct waiting; [done | discriminate].
Qed.

Lemma reachable_consistent (st : process) : reachable st → consistent st.
Proof.
  induction 1 as [environ store config | st s h hs _ IH | st _ IH].
  - reflexivity.
  - by apply consistent_import.
  - by apply consistent_job_finishes.
Qed.

Lemma consistent_running (st : process) :
  consistent st → (lock_locked st = true ↔ threadpool st ≠ []).
Proof.
  unfold consistent. destruct (lock_locked st); intros Hst.
  - split; [|done]. intros _ Hnil. by rewrite Hnil in Hst.
  - by rewrite Hst.
Qed.

(** C4: a call made while the lock is held returns [None], it does not
    raise, and it leaves the whole process state as it was, so no job is
    scheduled; [None] is never what a call on a free lock returns. *)
Theorem import_while_running_is_skipped (sources : list source)
    (http_proxy https_proxy : option string) (st : process) :
  lock_locked st = true →
  (import_boot_images sources http_proxy https_proxy st).1 = Returned None
  ∧ (import_boot_images sources http_proxy https_proxy st).2 = st
  ∧ threadpool (import_boot_images sources http_proxy https_proxy st).2
    = threadpool st
  ∧ ∀ sources' http_proxy' https_proxy' st',
      lock_locked st' = false →
      (import_boot_images sources' http_proxy' https_proxy' st').1
      ≠ Returned None.
Proof.
  intros Hheld. rewrite import_boot_images_held by done.
  repeat split. intros s' h' hs' st' Hfree.
  by rewrite import_boot_images_free.
Qed.

(** C10: with the lock held the call returns [None], the value of a
    Python function that ends without [return]; with the lock free it
    returns what [lock.run] returned, the handle of the call just
    scheduled.  So the result is [None] exactly when the import was
    skipped. *)
Theorem skipped_import_returns_None (sources : list source)
    (http_proxy https_proxy : option string) (st : process) :
  (lock_locked st = true →
     import_boot_images sources http_proxy https_proxy st = (Returned None, st))
  ∧ (lock_locked st = false →
     import_boot_images sources http_proxy https_proxy st
     = (Returned (Some (lock_run (Job sources http_proxy https_proxy) st).1),
        (lock_run (Job sources http_proxy https_proxy) st).2)
     ∧ ∃ n, (lock_run (Job sources http_proxy https_proxy) st).1 = Handle n)
  ∧ ((import_boot_images sources http_proxy https_proxy st).1 = Returned None
     ↔ lock_locked st = true).
Proof.
  split; [apply import_boot_images_held|]. split.
  - intros Hfree. unfold import_boot_images, lock_run.
    rewrite Hfree. simpl. eauto.
  - destruct (lock_locked st) eqn:Hlock.
    + by rewrite import_boot_images_held.
    + by rewrite import_boot_images_free.
Qed.

(** C8: the query returns the lock's [locked] flag and leaves the state as
    it was; in every reachable state the flag is set exactly when an import
    is in flight.  In a fresh process it returns false, and a call of
    [import_boot_images] with any sources then schedules its job. *)
Theorem running_query_is_pure (st : process) :
  is_import_boot_images_running st = (Returned (lock_locked st), st)
  ∧ (reachable st →
       ((is_import_boot_images_running st).1 = Returned true
        ↔ threadpool st ≠ []))
  ∧ ∀ environ store config sources http_proxy https_proxy,
      let fresh := fresh_process environ store config in
      is_import_boot_images_running fresh = (Returned false, fresh)
      ∧ proceeds (import_boot_images sources http_proxy https_proxy fresh).1
      ∧ threadpool (import_boot_images sources http_proxy https_proxy fresh).2
        = [Job sources http_proxy https_proxy].
Proof.
  split; [done|]. split.
  - intros Hreach. apply reachable_consistent, consistent_running in Hreach.
    unfold is_import_boot_images_running. simpl. rewrite <- Hreach.
    split; [by intros [= ->] | by intros ->].
  - intros environ store config sources http_proxy https_proxy fresh.
    split; [done|]. unfold fresh.
    rewrite import_boot_images_free by done. simpl.
    split; [|done]. by eexists.
Qed.

End facade.

Section listing.

Lemma list_boot_images_found (st : process)
    (config : gmap string (gmap string string)) (tftp : gmap string string)
    (resource_root : string) :
  config_cache st = Returned config →
  config !! "tftp" = Some tftp →
  tftp !! "resource_root" = Some resource_root →
  (list_boot_images st).1
  = tftppath_list_boot_images resource_root (image_store st).
Proof.
  intros Hconfig Htftp Hroot. unfold list_boot_images, getitem. simpl.
  rewrite Hconfig. simpl. rewrite Htftp. simpl. by rewrite Hroot.
Qed.

(** C9: listing reads the cached configuration and the image store only:
    it leaves the process state as it was, and two states with the same
    configuration and store give the same answer whatever their lock, so
    the answer is the same while an import is running as while none is.
    Where the resource root names a readable directory the call returns
    the descriptors found there, and for an empty store it returns the
    empty sequence, with the lock held as well as free. *)
Theorem listing_ignores_the_lock (st : process) :
  (list_boot_images st).2 = st
  ∧ (∀ st', config_cache st' = config_cache st →
            image_store st' = image_store st →
            (list_boot_images st').1 = (list_boot_images st).1)
  ∧ (∀ held, (list_boot_images (with_lock held st)).1 = (list_boot_images st).1)
  ∧ (∀ config tftp resource_root found held,
       config_cache st = Returned config →
       config !! "tftp" = Some tftp →
       tftp !! "resource_root" = Some resource_root →
       image_store st !! resource_root = Some (Images found) →
       list_boot_images (with_lock held st)
       = (Returned found, with_lock held st))
  ∧ (∀ config tftp resource_root held,
       config_cache st = Returned config →
       config !! "tftp" = Some tftp →
       tftp !! "resource_root" = Some resource_root →
       image_store st !! resource_root = Some (Images []) →
       (list_boot_images (with_lock held st)).1 = Returned []).
Proof.
  split; [done|]. split.
  { intros st' Hconfig Hstore. unfold list_boot_images. simpl.
    by rewrite Hconfig, Hstore. }
  split; [done|].
  assert (∀ config tftp resource_root found held,
            config_cache st = Returned config →
            config !! "tftp" = Some tftp →
            tftp !! "resource_root" = Some resource_root →
            image_store st !! resource_root = Some (Images found) →
            list_boot_images (with_lock held st)
            = (Returned found, with_lock held st)) as Hfound.
  { intros config tftp resource_root found held Hconfig Htftp Hroot Hdir.
    apply injective_projections; [|done].
    rewrite (list_boot_images_found _ config tftp resource_root) by done.
    unfold tftppath_list_boot_images. simpl. by rewrite Hdir. }
  split; [done|].
  intros config tftp resource_root held Hconfig Htftp Hroot Hdir.
  by rewrite (Hfound config tftp resource_root [] held).
Qed.

End listing.

Section background_job.
Context {cluster : Collaborators}.

(** What one call on a free lock followed by the end of its job leaves. *)
Lemma import_then_finish (sources : list source)
    (http_proxy https_proxy : option string) (st : process) :
  lock_locked st = false →
  threadpool st = [] →
  let j := Job sources http_proxy https_proxy in
  let started := (import_boot_images sources http_proxy https_proxy st).2 in
  let ran := _run_import j (os_environ st) (image_store st) in
  (import_boot_images sources http_proxy https_proxy st).1
  = Returned (Some (Handle (length (fired st))))
  ∧ lock_locked started = true
  ∧ threadpool started = [j]
  ∧ job_finishes started
    = {| lock_locked := false; os_environ := ran.1.2; image_store := ran.2;
         config_cache := config_cache st; threadpool := [];
         fired := fired st ++ [ran.1.1] |}.
Proof.
  intros Hfree Hpool. simpl.
  rewrite import_boot_images_free by done. rewrite Hpool. simpl.
  rewrite Nat.add_0_r. repeat split.
  by rewrite (job_finishes_head _ (Job sources http_proxy https_proxy) []).
Qed.

(** C2: when the synchronisation engine always raises, an import started
    on a free lock fires an exception on its handle, and once the job is
    over the lock is free again: the running query answers false and the
    next call of [import_boot_images] schedules its job instead of being
    skipped. *)
Theorem failure_releases_lock (sources : list source)
    (http_proxy https_proxy : option string) (st : process) :
  (∀ srcs environ store, ∃ e, (import_images srcs environ store).1.1 = Raised e) →
  consistent st →
  lock_locked st = false →
  let started := (import_boot_images sources http_proxy https_proxy st).2 in
  let finished := job_finishes started in
  proceeds (import_boot_images sources http_proxy https_proxy st).1
  ∧ (is_import_boot_images_running started).1 = Returned true
  ∧ (∃ e, fired finished = (fired st ++ [Raised e])%list)
  ∧ is_import_boot_images_running finished = (Returned false, finished)
  ∧ ∀ sources' http_proxy' https_proxy',
      proceeds (import_boot_images sources' http_proxy' https_proxy' finished).1
      ∧ threadpool
          (import_boot_images sources' http_proxy' https_proxy' finished).2
        = [Job sources' http_proxy' https_proxy'].
Proof.
  intros Hraises Hreach Hfree started finished.
  assert (threadpool st = []) as Hpool.
  { unfold consistent in Hreach. by rewrite Hfree in Hreach. }
  destruct (import_then_finish sources http_proxy https_proxy st Hfree Hpool)
    as (Hret & Hheld & _ & Hfin).
  fold started in Hheld, Hfin. fold finished in Hfin.
  split; [rewrite Hret; by eexists|].
  split; [by rewrite <- Hheld|].
  split.
  { rewrite Hfin. simpl.
    destruct get_maas_user_gpghome as [gpghome|e] eqn:Hhome.
    - destruct (import_variables gpghome sources http_proxy https_proxy)
        as [variables|e] eqn:Hvariables.
      + destruct (run_import_resolved (Job sources http_proxy https_proxy)
                    gpghome variables (os_environ st) (image_store st)
                    Hhome Hvariables) as (Hout & _). simpl in Hout.
        destruct (Hraises sources (variables ∪ os_environ st)
                    (image_store st)) as [e He].
        exists e. by rewrite Hout, He.
      + exists e.
        by rewrite (run_import_rejected (Job sources http_proxy https_proxy)
                      gpghome e).
    - exists e. by rewrite (run_import_unresolved _ e). }
  split; [by rewrite Hfin|].
  intros s' h' hs'. rewrite import_boot_images_free by (by rewrite Hfin).
  rewrite Hfin. simpl. split; [by eexists | done].
Qed.

End background_job.

Section job_outcomes.
Context {cluster : Collaborators}.

(** C5 (amended): when the credential home cannot be resolved, a call of
    [import_boot_images] on a free lock still returns a handle without
    raising, with its job scheduled and the lock held: the credential home
    is looked up inside the background job.  There the error is raised
    before any environment variable is set and before the synchronisation
    starts, it fires on the handle of the job, and the lock is released.
    An unreadable configuration, which holds the resource root, raises in
    the caller of [list_boot_images]. *)
Theorem unresolved_home_fails_in_job (sources : list source)
    (http_proxy https_proxy : option string) (st : process) (e : pyexc) :
  get_maas_user_gpghome = Raised e →
  consistent st →
  lock_locked st = false →
  let started := (import_boot_images sources http_proxy https_proxy st).2 in
  let finished := job_finishes started in
  (import_boot_images sources http_proxy https_proxy st).1
  = Returned (Some (Handle (length (fired st))))
  ∧ lock_locked started = true
  ∧ threadpool started = [Job sources http_proxy https_proxy]
  ∧ fired finished !! length (fired st) = Some (Raised e)
  ∧ os_environ finished = os_environ st
  ∧ image_store finished = image_store st
  ∧ lock_locked finished = false
  ∧ ∀ e', config_cache st = Raised e' → (list_boot_images st).1 = Raised e'.
Proof.
  intros Hhome Hst Hfree started finished.
  assert (threadpool st = []) as Hpool.
  { unfold consistent in Hst. by rewrite Hfree in Hst. }
  destruct (import_then_finish sources http_proxy https_proxy st Hfree Hpool)
    as (Hret & Hheld & Hjob & Hfin).
  fold started in Hheld, Hjob, Hfin. fold finished in Hfin.
  rewrite (run_import_unresolved _ e) in Hfin by done. simpl in Hfin.
  repeat split; try done.
  - rewrite Hfin. simpl. by rewrite list_lookup_middle.
  - by rewrite Hfin.
  - by rewrite Hfin.
  - by rewrite Hfin.
  - intros e' Hconfig. unfold list_boot_images. simpl. by rewrite Hconfig.
Qed.

(** C7: the override map always holds GNUPGHOME, the credential home, and
    no_proxy, the host list joined by commas; it holds http_proxy and
    https_proxy exactly when the argument was given, with the given value,
    and nothing else.  With the credential home resolved, the engine runs
    in the process environment overridden by this map.  The map is built
    whenever [urlparse] accepts the URL of every source; a URL it rejects
    raises its error in place of the map, and the job then ends with that
    error, the environment and the image store untouched.  For empty
    sources and no proxies the map is GNUPGHOME and no_proxy set to the
    three loopback hosts; and with an engine that accepts empty sources the
    job of [import_boot_images([])] runs to its end without error. *)
Theorem override_map (gpghome : string) (sources : list source)
    (http_proxy https_proxy : option string) :
  (Forall (λ s, ∃ hostname, urlparse_hostname (url s) = Returned hostname)
     sources →
   ∃ variables,
     import_variables gpghome sources http_proxy https_proxy
     = Returned variables)
  ∧ (∀ variables,
       import_variables gpghome sources http_proxy https_proxy
       = Returned variables →
       variables !! "GNUPGHOME" = Some gpghome
       ∧ (∃ hosts, no_proxy_hosts sources = Returned hosts
                   ∧ variables !! "no_proxy" = Some (String.concat "," hosts))
       ∧ variables !! "http_proxy" = http_proxy
       ∧ variables !! "https_proxy" = https_proxy
       ∧ (is_Some (variables !! "http_proxy") ↔ is_Some http_proxy)
       ∧ (is_Some (variables !! "https_proxy") ↔ is_Some https_proxy)
       ∧ (∀ name,
            name ∉ ["GNUPGHOME"; "no_proxy"; "http_proxy"; "https_proxy"] →
            variables !! name = None)
       ∧ (get_maas_user_gpghome = Returned gpghome →
          ∀ environ store,
            (_run_import (Job sources http_proxy https_proxy)
               environ store).1.1
            = (import_images sources (variables ∪ environ) store).1.1))
  ∧ (∀ e,
       import_variables gpghome sources http_proxy https_proxy = Raised e →
       no_proxy_hosts sources = Raised e
       ∧ Exists (λ s, urlparse_hostname (url s) = Raised e) sources
       ∧ (get_maas_user_gpghome = Returned gpghome →
          ∀ environ store,
            _run_import (Job sources http_proxy https_proxy) environ store
            = (Raised e, environ, store)))
  ∧ import_variables gpghome [] None None
    = Returned (<["no_proxy" := "localhost,127.0.0.1,::1"]>
                  {[ "GNUPGHOME" := gpghome ]})
  ∧ (get_maas_user_gpghome = Returned gpghome →
     (∀ environ store, (import_images [] environ store).1.1 = Returned ()) →
     ∀ st, consistent st → lock_locked st = false →
       let started := (import_boot_images [] None None st).2 in
       (import_boot_images [] None None st).1
       = Returned (Some (Handle (length (fired st))))
       ∧ fired (job_finishes started) !! length (fired st) = Some (Returned ())
       ∧ lock_locked (job_finishes started) = false).
Proof.
  assert (import_variables gpghome [] None None
          = Returned (<["no_proxy" := "localhost,127.0.0.1,::1"]>
                        {[ "GNUPGHOME" := gpghome ]})) as Hempty.
  { unfold import_variables, no_proxy_hosts, get_hosts_from_sources. simpl.
    by rewrite set_to_list_empty. }
  destruct (import_variables_cases gpghome sources http_proxy https_proxy)
    as [Hbuilt Hraised].
  split.
  { intros Hparse.
    apply (Hbuilt (loopback_hosts
                   ++ set_to_list (source_hostnames sources))).
    by apply no_proxy_hosts_spec. }
  split.
  { intros variables Hvariables.
    destruct (lookup_import_variables gpghome sources http_proxy https_proxy
                variables Hvariables)
      as (Hhome & Hno & Hhttp & Hhttps & Hother).
    split; [done|]. split; [done|]. split; [done|]. split; [done|].
    split; [by rewrite Hhttp|]. split; [by rewrite Hhttps|].
    split; [done|].
    intros Hresolved environ store.
    by destruct (run_import_resolved (Job sources http_proxy https_proxy)
                   gpghome variables environ store Hresolved Hvariables)
      as (Hout & _). }
  split.
  { intros e Hvariables.
    pose proof (proj2 (Hraised e) Hvariables) as Hhosts.
    split; [done|]. split.
    - unfold no_proxy_hosts in Hhosts.
      destruct (get_hosts_from_sources sources) as [hosts|e'] eqn:Hget;
        [done|].
      simpl in Hhosts. injection Hhosts as ->.
      by apply (for_each_add_host_raised sources ∅).
    - intros Hresolved environ store.
      by apply (run_import_rejected (Job sources http_proxy https_proxy)
                  gpghome). }
  split; [done|].
  intros Hresolved Hengine st Hst Hfree started.
  assert (threadpool st = []) as Hpool.
  { unfold consistent in Hst. by rewrite Hfree in Hst. }
  destruct (import_then_finish [] None None st Hfree Hpool)
    as (Hret & _ & _ & Hfin).
  fold started in Hfin. split; [done|]. rewrite Hfin. simpl.
  split; [|done]. rewrite list_lookup_middle by done. f_equal.
  destruct (run_import_resolved (Job [] None None) gpghome _
              (os_environ st) (image_store st) Hresolved Hempty)
    as (Hout & _).
  rewrite Hout. apply Hengine.
Qed.

End job_outcomes.

Section concurrent_callers.

(** A call of the facade is the two steps of a caller, one after the
    other. *)
Lemma caller_steps_are_the_call (sources : list source)
    (http_proxy https_proxy : option string) (st : process) :
  let j := Job sources http_proxy https_proxy in
  caller_step (caller_step (AtTest j) st).1 (caller_step (AtTest j) st).2
  = (Finished (import_boot_images sources http_proxy https_proxy st).1,
     (import_boot_images sources http_proxy https_proxy st).2).
Proof.
  simpl. unfold import_boot_images.
  destruct (lock_locked st) eqn:Hlock; simpl; [done|].
  by destruct (lock_run (Job sources http_proxy https_proxy) st).
Qed.

Lemma caller_step_free (j : job) (c : caller) (st : process) :
  lock_locked st = false →
  c = AtTest j ∨ c = AtRun j →
  (caller_step c st = (AtRun j, st))
  ∨ (∃ n, (caller_step c st).1 = Finished (Returned (Some (Handle n)))
          ∧ lock_locked (caller_step c st).2 = true
          ∧ threadpool (caller_step c st).2 = threadpool st ++ [j]).
Proof.
  intros Hfree [-> | ->]; simpl.
  - left. by rewrite Hfree.
  - right. unfold lock_run. rewrite Hfree. simpl. eauto.
Qed.

Lemma caller_step_held (j : job) (c : caller) (st : process) :
  lock_locked st = true →
  not_started c j →
  (caller_step c st).2 = st ∧ not_started (caller_step c st).1 j.
Proof.
  intros Hheld [-> | [-> | (r & -> & Hr)]]; simpl.
  - rewrite Hheld. simpl. split; [done|].
    right; right. eexists. split; [done|]. by left.
  - unfold lock_run. rewrite Hheld. simpl. split; [done|].
    right; right. eexists. split; [done|]. by right.
  - split; [done|]. right; right. eauto.
Qed.

Lemma caller_step_started (c : caller) (st : process) :
  started c → caller_step c st = (c, st).
Proof. by intros (r & -> & _). Qed.

Lemma race_step (j1 j2 : job) (st0 : process) (who : bool)
    (c1 c2 : caller) (st : process) :
  race j1 j2 st0 c1 c2 st →
  if who then race j1 j2 st0 (caller_step c1 st).1 c2 (caller_step c1 st).2
  else race j1 j2 st0 c1 (caller_step c2 st).1 (caller_step c2 st).2.
Proof.
  intros [(Hfree & Hpool & H1 & H2)
         |[(Hheld & Hpool & H1 & H2)|(Hheld & Hpool & H1 & H2)]];
    destruct who.
  - destruct (caller_step_free j1 c1 st Hfree H1)
      as [-> | (n & Hc & Hlock & Hjobs)]; simpl.
    + left. auto.
    + right; left. rewrite Hjobs, Hpool, Hc. repeat split; try done.
      * eexists. split; [done|]. by eexists.
      * destruct H2 as [-> | ->]; [by left | by right; left].
  - destruct (caller_step_free j2 c2 st Hfree H2)
      as [-> | (n & Hc & Hlock & Hjobs)]; simpl.
    + left. auto.
    + right; right. rewrite Hjobs, Hpool, Hc. repeat split; try done.
      * destruct H1 as [-> | ->]; [by left | by right; left].
      * eexists. split; [done|]. by eexists.
  - rewrite caller_step_started by done. right; left. auto.
  - destruct (caller_step_held j2 c2 st Hheld H2) as [-> Hc].
    right; left. auto.
  - destruct (caller_step_held j1 c1 st Hheld H1) as [-> Hc].
    right; right. auto.
  - rewrite caller_step_started by done. right; right. auto.
Qed.

Lemma race_interleave (j1 j2 : job) (st0 : process) (schedule : list bool) :
  ∀ c1 c2 st,
    race j1 j2 st0 c1 c2 st →
    race j1 j2 st0 (interleave schedule c1 c2 st).1.1
      (interleave schedule c1 c2 st).1.2 (interleave schedule c1 c2 st).2.
Proof.
  induction schedule as [|who schedule IH]; intros c1 c2 st Hrace; [done|].
  pose proof (race_step j1 j2 st0 who c1 c2 st Hrace) as Hstep.
  destruct who; simpl.
  - destruct (caller_step c1 st) as [c1' st']. by apply IH.
  - destruct (caller_step c2 st) as [c2' st']. by apply IH.
Qed.

Lemma steps_left_step (c : caller) (st : process) :
  steps_left (caller_step c st).1 ≤ pred (steps_left c).
Proof.
  destruct c as [j|j|r]; simpl; [|by destruct (lock_run j st)|done].
  destruct (lock_locked st); simpl; lia.
Qed.

Lemma steps_left_interleave (schedule : list bool) :
  ∀ c1 c2 st,
    steps_left (interleave schedule c1 c2 st).1.1
      ≤ steps_left c1 - turns true schedule
    ∧ steps_left (interleave schedule c1 c2 st).1.2
      ≤ steps_left c2 - turns false schedule.
Proof.
  induction schedule as [|who schedule IH]; intros c1 c2 st.
  - simpl. lia.
  - destruct who; simpl.
    + pose proof (steps_left_step c1 st) as Hstep.
      destruct (caller_step c1 st) as [c1' st']. simpl in Hstep.
      destruct (IH c1' c2 st') as [IH1 IH2]. lia.
    + pose proof (steps_left_step c2 st) as Hstep.
      destruct (caller_step c2 st) as [c2' st']. simpl in Hstep.
      destruct (IH c1 c2' st') as [IH1 IH2]. lia.
Qed.

Lemma steps_left_0 (c : caller) : steps_left c = 0 → ∃ r, c = Finished r.
Proof. destruct c; simpl; intros; [lia | lia | eauto]. Qed.

(** C1: two callers of [import_boot_images] race from a state with the
    lock free, their steps interleaved in any order, and no job ends
    meanwhile.  At every point of the race the lock is held exactly when
    one job has been added to the thread pool, so no caller sees the one
    without the other.  Once each caller has had its two steps both have
    returned; and when both have returned, exactly one of them has the
    handle of its own job, the only job scheduled, and the other has the
    skip value. *)
Theorem exactly_one_import_runs (schedule : list bool) (j1 j2 : job)
    (st : process) :
  lock_locked st = false →
  let c1 := (interleave schedule (AtTest j1) (AtTest j2) st).1.1 in
  let c2 := (interleave schedule (AtTest j1) (AtTest j2) st).1.2 in
  let st' := (interleave schedule (AtTest j1) (AtTest j2) st).2 in
  ((lock_locked st' = false ∧ threadpool st' = threadpool st)
   ∨ (lock_locked st' = true ∧ ∃ j, threadpool st' = threadpool st ++ [j]))
  ∧ (2 ≤ turns true schedule → 2 ≤ turns false schedule →
       ∃ r1 r2, c1 = Finished r1 ∧ c2 = Finished r2)
  ∧ (∀ r1 r2, c1 = Finished r1 → c2 = Finished r2 →
       (proceeds r1 ∧ skipped r2 ∧ threadpool st' = threadpool st ++ [j1])
       ∨ (skipped r1 ∧ proceeds r2 ∧ threadpool st' = threadpool st ++ [j2])).
Proof.
  intros Hfree c1 c2 st'.
  assert (race j1 j2 st c1 c2 st') as Hrace.
  { apply race_interleave. left. auto. }
  split; [|split].
  - destruct Hrace as [(? & ? & _)|[(? & ? & _)|(? & ? & _)]]; eauto.
  - intros Hturns1 Hturns2.
    destruct (steps_left_interleave schedule (AtTest j1) (AtTest j2) st)
      as [Hleft1 Hleft2].
    fold c1 in Hleft1. fold c2 in Hleft2. simpl in Hleft1, Hleft2.
    destruct (steps_left_0 c1) as [r1 ->]; [lia|].
    destruct (steps_left_0 c2) as [r2 ->]; [lia|]. eauto.
  - intros r1 r2 Hc1 Hc2. rewrite Hc1, Hc2 in Hrace.
    destruct Hrace as [(_ & _ & [?|?] & _)
                      |[(_ & Hpool & H1 & H2)|(_ & Hpool & H1 & H2)]];
      try discriminate.
    + left. destruct H1 as (r & [= <-] & Hr).
      destruct H2 as [?|[?|(r' & [= <-] & Hr')]]; try discriminate. auto.
    + right. destruct H2 as (r & [= <-] & Hr).
      destruct H1 as [?|[?|(r' & [= <-] & Hr')]]; try discriminate. auto.
Qed.

End concurrent_callers.

(** * The properties at concrete inputs *)

Example importing_process_state :
  lock_locked importing_process = true
  ∧ threadpool importing_process
    = [Job [a_example] (Some "http://proxy.example:8000") None]
  ∧ os_environ importing_process = os_environ idle_process.
Proof. repeat split. Qed.

(** Both callers test the lock before either runs: the second to call
    [lock.run] finds the lock held. *)
Lemma exactly_one_import_runs_witness :
  lock_locked idle_process = false
  ∧ interleave [true; false; false; true]
      (AtTest (Job [a_example] None None)) (AtTest (Job [b_example] None None))
      idle_process
    = (Finished (Returned (Some NotStarted)),
       Finished (Returned (Some (Handle 0))),
       (import_boot_images [b_example] None None idle_process).2)
  ∧ ∃ r1 r2,
      (interleave [true; false; false; true]
         (AtTest (Job [a_example] None None))
         (AtTest (Job [b_example] None None)) idle_process).1.1 = Finished r1
      ∧ (interleave [true; false; false; true]
           (AtTest (Job [a_example] None None))
           (AtTest (Job [b_example] None None)) idle_process).1.2 = Finished r2.
Proof.
  split; [reflexivity|]. split; [reflexivity|].
  apply (exactly_one_import_runs [true; false; false; true]
           (Job [a_example] None None) (Job [b_example] None None)
           idle_process); [reflexivity | simpl; lia | simpl; lia].
Defined.

Lemma failure_releases_lock_witness :
  (is_import_boot_images_running
     (job_finishes (cluster := failing_engine)
        (import_boot_images [a_example] None None idle_process).2)).1
  = Returned false
  ∧ proceeds
      (import_boot_images [b_example] None None
         (job_finishes (cluster := failing_engine)
            (import_boot_images [a_example] None None idle_process).2)).1.
Proof.
  destruct (failure_releases_lock (cluster := failing_engine)
              [a_example] None None idle_process)
    as (_ & _ & _ & Hquery & Hnext).
  - intros srcs environ store. eexists. reflexivity.
  - reflexivity.
  - reflexivity.
  - split.
    + exact (f_equal fst Hquery).
    + apply (Hnext [b_example] None None).
Defined.

(** The failing engine overwrites GNUPGHOME, which was absent before, and
    the job ran with a proxy of its own in place of the one of the
    process. *)
Lemma environment_restored_witness :
  sets_variable (Job [a_example] (Some "http://proxy.example:8000") None)
    "http_proxy"
  ∧ (_run_import (cluster := failing_engine)
       (Job [a_example] (Some "http://proxy.example:8000") None)
       (os_environ idle_process) (image_store idle_process)).1.1
    = Raised (Exc "synchronisation failed")
  ∧ (_run_import (cluster := failing_engine)
       (Job [a_example] (Some "http://proxy.example:8000") None)
       (os_environ idle_process) (image_store idle_process)).1.2 !! "http_proxy"
    = Some "http://squid.internal:3128"
  ∧ (_run_import (cluster := failing_engine)
       (Job [a_example] (Some "http://proxy.example:8000") None)
       (os_environ idle_process) (image_store idle_process)).1.2 !! "GNUPGHOME"
    = None.
Proof.
  assert (sets_variable
            (Job [a_example] (Some "http://proxy.example:8000") None)
            "http_proxy") as Hproxy.
  { right; right; left. split; [reflexivity | by eexists]. }
  split; [exact Hproxy|]. split; [reflexivity|]. split.
  - destruct (environment_restored (cluster := failing_engine)
                (Job [a_example] (Some "http://proxy.example:8000") None)
                (os_environ idle_process) (image_store idle_process)
                "http_proxy" Hproxy) as [Heq _].
    rewrite Heq. reflexivity.
  - destruct (environment_restored (cluster := failing_engine)
                (Job [a_example] (Some "http://proxy.example:8000") None)
                (os_environ idle_process) (image_store idle_process)
                "GNUPGHOME") as [_ Habsent]; [by left|].
    apply Habsent. reflexivity.
Defined.

Lemma import_while_running_is_skipped_witness :
  lock_locked importing_process = true
  ∧ import_boot_images [b_example] None None importing_process
    = (Returned None, importing_process).
Proof.
  split; [reflexivity|].
  destruct (import_while_running_is_skipped [b_example] None None
              importing_process) as (Hret & Hst & _); [reflexivity|].
  apply injective_projections; assumption.
Defined.

(** C5 as stated fails: with the credential home unresolvable, the call on
    a free lock returns a handle, and its job is in the thread pool. *)
Lemma unresolved_home_is_not_synchronous :
  get_maas_user_gpghome (Collaborators := homeless_cluster)
  = Raised (OSError "/var/lib/maas/gnupg")
  ∧ lock_locked idle_process = false
  ∧ (import_boot_images [a_example] None None idle_process).1
    = Returned (Some (Handle 0))
  ∧ (import_boot_images [a_example] None None idle_process).1
    ≠ Raised (OSError "/var/lib/maas/gnupg")
  ∧ threadpool (import_boot_images [a_example] None None idle_process).2
    = [Job [a_example] None None]
  ∧ threadpool (import_boot_images [a_example] None None idle_process).2
    ≠ threadpool idle_process.
Proof. repeat split; discriminate. Qed.

Lemma unresolved_home_fails_in_job_witness :
  fired (job_finishes (cluster := homeless_cluster)
           (import_boot_images [a_example] None None idle_process).2) !! 0
  = Some (Raised (OSError "/var/lib/maas/gnupg"))
  ∧ lock_locked (job_finishes (cluster := homeless_cluster)
                   (import_boot_images [a_example] None None idle_process).2)
    = false.
Proof.
  destruct (unresolved_home_fails_in_job (cluster := homeless_cluster)
              [a_example] None None idle_process
              (OSError "/var/lib/maas/gnupg"))
    as (_ & _ & _ & Hfired & _ & _ & Hfree & _);
    [reflexivity | reflexivity | reflexivity |].
  split; assumption.
Defined.

(** C6 as stated fails: a source on localhost is listed a second time, and
    for a source whose URL [urlparse] rejects no host list is computed. *)
Lemma loopback_source_is_listed_twice :
  no_proxy_hosts (cluster := quiet_cluster) [on_localhost]
  = Returned ["localhost"; "127.0.0.1"; "::1"; "localhost"]
  ∧ ¬ NoDup ["localhost"; "127.0.0.1"; "::1"; "localhost"]
  ∧ import_variables (cluster := quiet_cluster) "/var/lib/maas/gnupg"
      [on_localhost] None None
    = Returned (<["no_proxy" := "localhost,127.0.0.1,::1,localhost"]>
                  {[ "GNUPGHOME" := "/var/lib/maas/gnupg" ]})
  ∧ urlparse_hostname (Collaborators := quiet_cluster) (url open_bracket)
    = Raised ValueError
  ∧ get_hosts_from_sources (cluster := quiet_cluster) [a_example; open_bracket]
    = Raised ValueError
  ∧ no_proxy_hosts (cluster := quiet_cluster) [a_example; open_bracket]
    = Raised ValueError.
Proof.
  split; [by vm_compute|]. split.
  - intros Hnodup. apply NoDup_cons in Hnodup as [Hnotin _].
    apply Hnotin. do 2 apply list_elem_of_further. apply list_elem_of_here.
  - repeat split; by vm_compute.
Qed.

Lemma no_proxy_host_set_witness :
  urlparse_hostname (Collaborators := quiet_cluster) "http://a.example"
  = Returned (Some "a.example")
  ∧ no_proxy_hosts (cluster := quiet_cluster) [a_example; b_example]
    = Returned ["localhost"; "127.0.0.1"; "::1"; "a.example"; "b.example"]
  ∧ NoDup ["localhost"; "127.0.0.1"; "::1"; "a.example"; "b.example"]
  ∧ (∃ computed',
       no_proxy_hosts (cluster := quiet_cluster) [b_example; a_example]
       = Returned computed'
       ∧ ["localhost"; "127.0.0.1"; "::1"; "a.example"; "b.example"]
         ≡ₚ computed')
  ∧ ∃ computed,
      no_proxy_hosts (cluster := quiet_cluster) [a_example; b_example]
      = Returned computed
      ∧ NoDup computed ∧ length computed = 5.
Proof.
  assert (no_proxy_hosts (cluster := quiet_cluster) [a_example; b_example]
          = Returned ["localhost"; "127.0.0.1"; "::1"; "a.example";
                      "b.example"]) as Hcomputed
    by (vm_compute; reflexivity).
  destruct (no_proxy_host_set (cluster := quiet_cluster) [a_example; b_example])
    as (_ & _ & _ & Hlist & Hexample).
  destruct (Hlist _ Hcomputed) as (_ & _ & _ & _ & Hperm).
  destruct (Hexample eq_refl eq_refl) as (computed & Hc & _ & Hnd & Hlen).
  split; [reflexivity|]. split; [exact Hcomputed|]. split.
  { rewrite Hcomputed in Hc. injection Hc as <-. exact Hnd. }
  split.
  { apply (Hperm [b_example; a_example]). apply perm_swap. }
  exists computed. split; [exact Hc|]. split; [exact Hnd | exact Hlen].
Defined.

Lemma override_map_witness :
  import_variables (cluster := quiet_cluster) "/var/lib/maas/gnupg" [] None None
  = Returned (<["no_proxy" := "localhost,127.0.0.1,::1"]>
                {[ "GNUPGHOME" := "/var/lib/maas/gnupg" ]})
  ∧ (import_boot_images [] None None idle_process).1
    = Returned (Some (Handle 0))
  ∧ fired (job_finishes (cluster := quiet_cluster)
             (import_boot_images [] None None idle_process).2) !! 0
    = Some (Returned ())
  ∧ (∃ variables,
       import_variables (cluster := quiet_cluster) "/var/lib/maas/gnupg"
         [a_example] (Some "http://proxy.example:8000") None
       = Returned variables
       ∧ variables !! "http_proxy" = Some "http://proxy.example:8000"
       ∧ variables !! "https_proxy" = None)
  ∧ _run_import (cluster := quiet_cluster)
      (Job [a_example; open_bracket] None None)
      (os_environ idle_process) (image_store idle_process)
    = (Raised ValueError, os_environ idle_process, image_store idle_process).
Proof.
  destruct (override_map (cluster := quiet_cluster)
              "/var/lib/maas/gnupg" [] None None)
    as (_ & _ & _ & Hmap & Hruns).
  split; [exact Hmap|].
  destruct (Hruns eq_refl (λ _ _, eq_refl) idle_process eq_refl eq_refl)
    as (Hret & Hfired & _).
  split; [exact Hret|]. split; [exact Hfired|]. split.
  - destruct (override_map (cluster := quiet_cluster)
                "/var/lib/maas/gnupg" [a_example]
                (Some "http://proxy.example:8000") None)
      as (Hbuilt & Hkeys & _).
    destruct Hbuilt as [variables Hvariables].
    { constructor; [|constructor].
      exists (Some "a.example"). reflexivity. }
    destruct (Hkeys variables Hvariables) as (_ & _ & Hhttp & Hhttps & _).
    exists variables. split; [exact Hvariables|].
    split; [exact Hhttp | exact Hhttps].
  - destruct (override_map (cluster := quiet_cluster)
                "/var/lib/maas/gnupg" [a_example; open_bracket] None None)
      as (_ & _ & Hraised & _).
    destruct (Hraised ValueError) as (_ & _ & Hjob); [reflexivity|].
    apply (Hjob eq_refl).
Defined.

Lemma running_query_is_pure_witness :
  reachable (cluster := quiet_cluster) importing_process
  ∧ (is_import_boot_images_running importing_process).1 = Returned true
  ∧ threadpool importing_process ≠ [].
Proof.
  assert (reachable (cluster := quiet_cluster) importing_process) as Hreach.
  { apply reachable_import, reachable_fresh. }
  split; [exact Hreach|]. split; [reflexivity|].
  destruct (running_query_is_pure (cluster := quiet_cluster) importing_process)
    as (_ & Hrunning & _).
  apply (Hrunning Hreach). reflexivity.
Defined.

Lemma listing_ignores_the_lock_witness :
  list_boot_images idle_process = (Returned [], idle_process)
  ∧ list_boot_images importing_process = (Returned [], importing_process).
Proof.
  destruct (listing_ignores_the_lock idle_process)
    as (_ & _ & _ & Hfound & _).
  split.
  - apply (Hfound {[ "tftp" := {[ "resource_root" := boot_resources_root ]} ]}
             {[ "resource_root" := boot_resources_root ]}
             boot_resources_root [] false); by vm_compute.
  - destruct (listing_ignores_the_lock importing_process)
      as (Hstate & Hsame & _).
    apply injective_projections; [|exact Hstate].
    rewrite <- (Hsame idle_process) by reflexivity.
    by vm_compute.
Defined.

Lemma skipped_import_returns_None_witness :
  import_boot_images [b_example] None None importing_process
  = (Returned None, importing_process)
  ∧ (import_boot_images [b_example] None None idle_process).1
    = Returned (Some (Handle 0)).
Proof.
  destruct (skipped_import_returns_None [b_example] None None
              importing_process) as (Hheld & _ & _).
  destruct (skipped_import_returns_None [b_example] None None idle_process)
    as (_ & Hfree & _).
  split.
  - apply Hheld. reflexivity.
  - destruct (Hfree eq_refl) as [Hcall _]. by rewrite Hcall.
Defined.

(** * Further properties of the facade *)

Section more_host_sets.
Context {cluster : Collaborators}.

(** Whether the loop raises, and what, does not depend on the hosts
    gathered so far. *)
Lemma for_each_add_host_raised_any (sources : list source)
    (hosts hosts' : gset string) (e : pyexc) :
  for_each add_host sources hosts = Raised e →
  for_each add_host sources hosts' = Raised e.
Proof.
  revert hosts hosts'.
  induction sources as [|s sources IH]; intros hosts hosts'; [done|].
  rewrite !for_each_cons, !add_host_cases.
  destruct (urlparse_hostname (url s)) as [[h|]|e']; simpl; eauto.
Qed.

(** The exception of the loop is that of the first URL, in the order of
    the sources, that [urlparse] rejects. *)
Lemma for_each_add_host_first_raised (sources : list source)
    (hosts : gset string) (e : pyexc) :
  for_each add_host sources hosts = Raised e →
  ∃ before s after,
    sources = before ++ s :: after
    ∧ Forall (λ s, ∃ hostname, urlparse_hostname (url s) = Returned hostname)
        before
    ∧ urlparse_hostname (url s) = Raised e.
Proof.
  revert hosts. induction sources as [|s sources IH]; intros hosts; [done|].
  rewrite for_each_cons, add_host_cases.
  destruct (urlparse_hostname (url s)) as [hostname|e'] eqn:Hs.
  - intros Hloop.
    assert (∃ hosts', for_each add_host sources hosts' = Raised e)
      as [hosts' Hrest] by (destruct hostname; simpl in Hloop; eauto).
    destruct (IH hosts' Hrest) as (before & s' & after & -> & Hbefore & Hs').
    exists (s :: before), s', after. split; [done|]. split; [|done].
    constructor; [by eexists | done].
  - simpl. intros [= ->]. exists [], s, sources. split; [done|].
    split; [constructor | done].
Qed.

(** X1: when [get_hosts_from_sources] returns, a hostname is among the
    hosts it returns exactly when some source has a URL with that hostname;
    the hosts of two source lists put together are the union of their
    hosts, so no sources give no hosts and repeating sources adds none.
    It returns exactly when [urlparse] accepts every URL; when the hosts of
    one of two lists cannot be computed, those of the two lists put
    together cannot either, and the exception is that of the first list
    that raises. *)
Theorem hosts_of_appended_sources (sources more : list source) :
  (∀ hosts, get_hosts_from_sources sources = Returned hosts →
     ∀ h, h ∈ hosts
          ↔ ∃ s, s ∈ sources ∧ urlparse_hostname (url s) = Returned (Some h))
  ∧ (∀ hosts found,
       get_hosts_from_sources sources = Returned hosts →
       get_hosts_from_sources more = Returned found →
       get_hosts_from_sources (sources ++ more) = Returned (hosts ∪ found))
  ∧ ((∃ hosts, get_hosts_from_sources sources = Returned hosts)
     ↔ Forall (λ s, ∃ hostname, urlparse_hostname (url s) = Returned hostname)
         sources)
  ∧ (∀ e, get_hosts_from_sources sources = Raised e →
       get_hosts_from_sources (sources ++ more) = Raised e)
  ∧ (∀ hosts e,
       get_hosts_from_sources sources = Returned hosts →
       get_hosts_from_sources more = Raised e →
       get_hosts_from_sources (sources ++ more) = Raised e)
  ∧ get_hosts_from_sources [] = Returned ∅
  ∧ get_hosts_from_sources (sources ++ sources)
    = get_hosts_from_sources sources.
Proof.
  assert (∀ a b hosts found,
            get_hosts_from_sources a = Returned hosts →
            get_hosts_from_sources b = Returned found →
            get_hosts_from_sources (a ++ b) = Returned (hosts ∪ found))
    as Happ.
  { intros a b hosts found Ha Hb.
    apply get_hosts_from_sources_spec in Hb as [Hb ->].
    unfold get_hosts_from_sources in *.
    rewrite for_each_app, Ha. simpl. by apply for_each_add_host. }
  assert (∀ a b e,
            get_hosts_from_sources a = Raised e →
            get_hosts_from_sources (a ++ b) = Raised e) as Hfirst.
  { intros a b e Ha. unfold get_hosts_from_sources in *.
    by rewrite for_each_app, Ha. }
  split; [|split; [apply Happ|split; [|split; [apply Hfirst|split; [|split]]]]].
  - intros hosts Hhosts h.
    apply get_hosts_from_sources_spec in Hhosts as [Hparse ->].
    unfold source_hostnames.
    rewrite elem_of_list_to_set, list_elem_of_omap. split.
    + intros (s & Hs & Hh). exists s. split; [done|].
      by destruct (urlparse_hostname (url s)) as [[h'|]|e]; simplify_eq.
    + intros (s & Hs & Hh). exists s. split; [done|]. by rewrite Hh.
  - split.
    + intros [hosts Hhosts].
      by apply get_hosts_from_sources_spec in Hhosts as [? _].
    + intros Hparse. eexists. by apply get_hosts_from_sources_spec.
  - intros hosts e Hsources Hmore. unfold get_hosts_from_sources in *.
    rewrite for_each_app, Hsources. simpl.
    by apply (for_each_add_host_raised_any more ∅).
  - done.
  - destruct (get_hosts_from_sources sources) as [hosts|e] eqn:Hsources.
    + rewrite (Happ sources sources hosts hosts) by done. f_equal. set_solver.
    + by apply Hfirst.
Qed.

End more_host_sets.

Section more_listing.

(** X2: when the cached configuration has no [tftp] section, or the section
    has no [resource_root], [list_boot_images] raises the KeyError of the
    missing key, whatever is in the store, and leaves the process state as
    it was. *)
Theorem listing_needs_resource_root (st : process)
    (config : gmap string (gmap string string)) :
  config_cache st = Returned config →
  (config !! "tftp" = None →
     list_boot_images st = (Raised (KeyError "tftp"), st))
  ∧ (∀ tftp, config !! "tftp" = Some tftp →
       tftp !! "resource_root" = None →
       list_boot_images st = (Raised (KeyError "resource_root"), st)).
Proof.
  intros Hconfig. split.
  - intros Htftp. unfold list_boot_images, getitem.
    rewrite Hconfig. simpl. by rewrite Htftp.
  - intros tftp Htftp Hroot. unfold list_boot_images, getitem.
    rewrite Hconfig. simpl. rewrite Htftp. simpl. by rewrite Hroot.
Qed.

End more_listing.

Section more_scheduling.
Context {cluster : Collaborators}.

(** X3: in every state the process can reach, at most one import job is in
    the thread pool, and none while the lock is free. *)
Theorem at_most_one_job_in_flight (st : process) :
  reachable st →
  length (threadpool st) ≤ 1
  ∧ (lock_locked st = false → threadpool st = []).
Proof.
  intros Hreach. apply reachable_consistent in Hreach.
  unfold consistent in Hreach.
  destruct (lock_locked st).
  - split; [lia | done].
  - rewrite Hreach. simpl. split; [lia | done].
Qed.

(** X4: of a burst of calls made on a free lock before the job ends, only
    the first has an effect: the state after the burst is the state after
    the first call, with the job of the first caller alone in the thread
    pool; the sources of the later calls are dropped, not queued. *)
Theorem burst_schedules_first_call_only
    (first : list source * option string * option string)
    (later : list (list source * option string * option string))
    (st : process) :
  lock_locked st = false →
  consistent st →
  let call st (c : list source * option string * option string) :=
    (import_boot_images c.1.1 c.1.2 c.2 st).2 in
  foldl call st (first :: later) = call st first
  ∧ threadpool (foldl call st (first :: later))
    = [Job first.1.1 first.1.2 first.2]
  ∧ ∀ c, c ∈ later →
      import_boot_images c.1.1 c.1.2 c.2 (call st first)
      = (Returned None, call st first).
Proof.
  intros Hfree Hst call.
  assert (lock_locked (call st first) = true) as Hheld.
  { unfold call. by rewrite import_boot_images_free. }
  assert (∀ l, foldl call (call st first) l = call st first) as Hburst.
  { induction l as [|c l IH]; [done|]. simpl.
    unfold call at 2. by rewrite import_boot_images_held. }
  split; [apply Hburst|]. split.
  - simpl. rewrite Hburst. unfold call.
    rewrite import_boot_images_free by done. simpl.
    unfold consistent in Hst. rewrite Hfree in Hst. by rewrite Hst.
  - intros c _. by apply import_boot_images_held.
Qed.

(** X5: a call on a free lock followed by the end of its job, the
    credential home resolved.  When [urlparse] accepts the URL of every
    source the job builds its variables and runs the engine once, on the
    caller's sources, in the process environment overridden by these
    variables: GNUPGHOME is the credential home, a proxy variable is the
    proxy passed, and when none is passed it is whatever the process
    environment holds for it; the outcome of the engine is what fires on
    the handle and the store the engine leaves is the store of the
    process.  When [urlparse] rejects a URL the job builds no variables:
    the exception of the first rejected URL fires on the handle, the
    engine is not run, the environment and the store are as before, and
    the lock is released. *)
Theorem job_runs_engine_in_scoped_environment (sources : list source)
    (http_proxy https_proxy : option string) (st : process) (gpghome : string) :
  get_maas_user_gpghome = Returned gpghome →
  consistent st →
  lock_locked st = false →
  let finished :=
    job_finishes (import_boot_images sources http_proxy https_proxy st).2 in
  ((∃ variables,
      import_variables gpghome sources http_proxy https_proxy
      = Returned variables)
   ↔ Forall (λ s, ∃ hostname, urlparse_hostname (url s) = Returned hostname)
       sources)
  ∧ (∀ variables,
       import_variables gpghome sources http_proxy https_proxy
       = Returned variables →
       let scoped := variables ∪ os_environ st in
       let engine := import_images sources scoped (image_store st) in
       fired finished = fired st ++ [engine.1.1]
       ∧ image_store finished = engine.2
       ∧ lock_locked finished = false
       ∧ scoped !! "GNUPGHOME" = Some gpghome
       ∧ scoped !! "http_proxy"
         = match http_proxy with
           | Some proxy => Some proxy
           | None => os_environ st !! "http_proxy"
           end
       ∧ scoped !! "https_proxy"
         = match https_proxy with
           | Some proxy => Some proxy
           | None => os_environ st !! "https_proxy"
           end
       ∧ ∀ name,
           name ∉ ["GNUPGHOME"; "no_proxy"; "http_proxy"; "https_proxy"] →
           scoped !! name = os_environ st !! name)
  ∧ (∀ e,
       import_variables gpghome sources http_proxy https_proxy = Raised e →
       (∃ before s after,
          sources = before ++ s :: after
          ∧ Forall (λ s, ∃ hostname,
                      urlparse_hostname (url s) = Returned hostname) before
          ∧ urlparse_hostname (url s) = Raised e)
       ∧ fired finished = fired st ++ [Raised e]
       ∧ os_environ finished = os_environ st
       ∧ image_store finished = image_store st
       ∧ lock_locked finished = false).
Proof.
  intros Hhome Hst Hfree finished.
  assert (threadpool st = []) as Hpool.
  { unfold consistent in Hst. by rewrite Hfree in Hst. }
  destruct (import_then_finish sources http_proxy https_proxy st Hfree Hpool)
    as (_ & _ & _ & Hfin).
  fold finished in Hfin.
  destruct (import_variables_cases gpghome sources http_proxy https_proxy)
    as [Hbuilt Hraised].
  split; [|split].
  - split.
    + intros [variables Hvariables].
      destruct (lookup_import_variables gpghome sources http_proxy
                  https_proxy variables Hvariables)
        as (_ & (hosts & Hhosts & _) & _).
      by apply no_proxy_hosts_spec in Hhosts as [? _].
    + intros Hparse.
      apply (Hbuilt (loopback_hosts
                     ++ set_to_list (source_hostnames sources))).
      by apply no_proxy_hosts_spec.
  - intros variables Hvariables scoped engine.
    destruct (run_import_resolved (Job sources http_proxy https_proxy)
                gpghome variables (os_environ st) (image_store st)
                Hhome Hvariables) as (Hout & Hstore & _).
    simpl in Hout, Hstore. fold scoped in Hout, Hstore.
    fold engine in Hout, Hstore.
    destruct (lookup_import_variables gpghome sources http_proxy https_proxy
                variables Hvariables)
      as (Hg & _ & Hh & Hhs & Hother).
    split; [by rewrite Hfin, <- Hout|].
    split; [by rewrite Hfin, <- Hstore|].
    split; [by rewrite Hfin|].
    unfold scoped. split; [|split; [|split]].
    + by rewrite (lookup_union_Some_l _ _ _ _ Hg).
    + rewrite lookup_union, Hh. destruct http_proxy; simpl.
      * by destruct (os_environ st !! "http_proxy").
      * by destruct (os_environ st !! "http_proxy").
    + rewrite lookup_union, Hhs. destruct https_proxy; simpl.
      * by destruct (os_environ st !! "https_proxy").
      * by destruct (os_environ st !! "https_proxy").
    + intros name Hname. rewrite lookup_union, (Hother name Hname).
      by destruct (os_environ st !! name).
  - intros e Hvariables.
    rewrite (run_import_rejected (Job sources http_proxy https_proxy)
               gpghome e) in Hfin by done.
    simpl in Hfin. rewrite Hfin. simpl. split; [|done].
    apply Hraised in Hvariables. unfold no_proxy_hosts in Hvariables.
    destruct (get_hosts_from_sources sources) as [hosts|e'] eqn:Hget;
      [done|].
    simpl in Hvariables. injection Hvariables as ->.
    by apply (for_each_add_host_first_raised sources ∅).
Qed.

End more_scheduling.

(** * Properties of the networking preseed *)

Section text.
Import pytext.

Lemma isspace_lower_char (c : ascii) : isspace (lower_char c) = isspace c.
Proof. by destruct c as [[] [] [] [] [] [] [] []]. Qed.

Lemma lower_char_idemp (c : ascii) : lower_char (lower_char c) = lower_char c.
Proof. by destruct c as [[] [] [] [] [] [] [] []]. Qed.

Lemma lower_idemp (s : string) : lower (lower s) = lower s.
Proof.
  induction s as [|c s IH]; [done|]. simpl. by rewrite lower_char_idemp, IH.
Qed.

Lemma lower_lstrip (s : string) : lower (lstrip s) = lstrip (lower s).
Proof.
  induction s as [|c s IH]; [done|]. simpl.
  rewrite isspace_lower_char. by destruct (isspace c).
Qed.

Lemma lower_rstrip (s : string) : lower (rstrip s) = rstrip (lower s).
Proof.
  induction s as [|c s IH]; [done|]. simpl. rewrite <- IH.
  destruct (rstrip s); simpl; [|done].
  rewrite isspace_lower_char. by destruct (isspace c).
Qed.

Lemma lower_strip (s : string) : lower (strip s) = strip (lower s).
Proof. unfold strip. by rewrite lower_rstrip, lower_lstrip. Qed.

Lemma lstrip_starts_solid (s : string) : starts_solid (lstrip s).
Proof.
  induction s as [|c s IH]; [done|]. simpl.
  by destruct (isspace c) eqn:Hc.
Qed.

Lemma lstrip_solid (s : string) : starts_solid s → lstrip s = s.
Proof. destruct s as [|c s]; [done|]. simpl. by intros ->. Qed.

Lemma rstrip_starts_solid (s : string) :
  starts_solid s → starts_solid (rstrip s).
Proof.
  destruct s as [|c s]; [done|]. simpl. intros Hc.
  destruct (rstrip s); simpl; [by rewrite Hc | done].
Qed.

Lemma rstrip_idemp (s : string) : rstrip (rstrip s) = rstrip s.
Proof.
  induction s as [|c s IH]; [done|]. simpl.
  destruct (rstrip s) as [|c' kept] eqn:Hkept.
  - destruct (isspace c) eqn:Hc; [done|]. simpl. by rewrite Hc.
  - simpl in *. by rewrite IH.
Qed.

Lemma strip_idemp (s : string) : strip (strip s) = strip s.
Proof.
  unfold strip. rewrite (lstrip_solid (rstrip (lstrip s))).
  - apply rstrip_idemp.
  - apply rstrip_starts_solid, lstrip_starts_solid.
Qed.

Lemma lstrip_spaces (pad s : string) :
  all_chars isspace pad = true → lstrip (pad +:+ s) = lstrip s.
Proof.
  induction pad as [|c pad IH]; [done|]. simpl.
  intros [Hc Hpad]%andb_true_iff. rewrite Hc. by apply IH.
Qed.

Lemma lstrip_all_spaces (pad : string) :
  all_chars isspace pad = true → lstrip pad = EmptyString.
Proof.
  induction pad as [|c pad IH]; [done|]. simpl.
  intros [Hc Hpad]%andb_true_iff. rewrite Hc. by apply IH.
Qed.

Lemma rstrip_spaces (pad : string) :
  all_chars isspace pad = true → rstrip pad = EmptyString.
Proof.
  induction pad as [|c pad IH]; [done|]. simpl.
  intros [Hc Hpad]%andb_true_iff. by rewrite IH, Hc.
Qed.

Lemma rstrip_app_spaces (s pad : string) :
  all_chars isspace pad = true → rstrip (s +:+ pad) = rstrip s.
Proof.
  intros Hpad. induction s as [|c s IH]; simpl.
  - by apply rstrip_spaces.
  - by rewrite IH.
Qed.

Lemma strip_app_spaces (s pad : string) :
  all_chars isspace pad = true → strip (s +:+ pad) = strip s.
Proof.
  intros Hpad. unfold strip. induction s as [|c s IH]; simpl.
  - by rewrite lstrip_all_spaces.
  - destruct (isspace c); [done|].
    by apply (rstrip_app_spaces (String c s)).
Qed.

End text.

Section strings.

Lemma string_app_cons (x : ascii) (a b : string) :
  String x a +:+ b = String x (a +:+ b).
Proof. reflexivity. Qed.

Lemma string_app_nil (b : string) : EmptyString +:+ b = b.
Proof. reflexivity. Qed.

Lemma string_app_assoc (a b c : string) : (a +:+ b) +:+ c = a +:+ (b +:+ c).
Proof.
  induction a as [|x a IH]; [done|]. by rewrite !string_app_cons, IH.
Qed.

Lemma string_length_app (a b : string) :
  String.length (a +:+ b) = String.length a + String.length b.
Proof.
  induction a as [|x a IH]; [done|]. rewrite string_app_cons. simpl.
  by rewrite IH.
Qed.

Lemma string_app_inv_tail (a a' t : string) : a +:+ t = a' +:+ t → a = a'.
Proof.
  revert a'. induction a as [|x a IH]; intros [|x' a'] Heq;
    rewrite ?string_app_cons, ?string_app_nil in Heq.
  - done.
  - apply (f_equal String.length) in Heq. simpl in Heq.
    rewrite string_length_app in Heq. lia.
  - apply (f_equal String.length) in Heq. simpl in Heq.
    rewrite string_length_app in Heq. lia.
  - injection Heq as -> Heq. f_equal. by apply IH.
Qed.

(** Two texts free of the character [q] that are followed by [q] end at
    the same place. *)
Lemma string_app_inv_stop (q : ascii) (a a' r r' : string) :
  pytext.all_chars (λ c, negb (Ascii.eqb c q)) a = true →
  pytext.all_chars (λ c, negb (Ascii.eqb c q)) a' = true →
  a +:+ String q r = a' +:+ String q r' →
  a = a' ∧ r = r'.
Proof.
  revert a'. induction a as [|x a IH]; intros [|x' a'] Ha Ha' Heq;
    rewrite ?string_app_cons, ?string_app_nil in Heq; simpl in Ha, Ha'.
  - by injection Heq as ->.
  - injection Heq as <- _.
    apply andb_true_iff in Ha' as [Hx _]. by rewrite Ascii.eqb_refl in Hx.
  - injection Heq as -> _.
    apply andb_true_iff in Ha as [Hx _]. by rewrite Ascii.eqb_refl in Hx.
  - injection Heq as -> Heq.
    apply andb_true_iff in Ha as [_ Ha].
    apply andb_true_iff in Ha' as [_ Ha'].
    destruct (IH a' Ha Ha' Heq) as [-> ->]. done.
Qed.

End strings.

Section mac_addresses.
Import pytext networking_preseed.

(** X6: normalising a MAC a second time changes nothing: the normal form
    has no whitespace left to strip at either end and no character left to
    lower.  The MAC text [extract_mac_string] takes from a MAC address
    object is in that form. *)
Theorem normalise_mac_idempotent (mac : string) :
  normalise_mac (normalise_mac mac) = normalise_mac mac
  ∧ strip (normalise_mac mac) = normalise_mac mac
  ∧ lower (normalise_mac mac) = normalise_mac mac
  ∧ ∀ address : MACAddress,
      normalise_mac (extract_mac_string address) = extract_mac_string address.
Proof.
  assert (∀ m, strip (normalise_mac m) = normalise_mac m) as Hstrip.
  { intros m. unfold normalise_mac. by rewrite <- lower_strip, strip_idemp. }
  assert (∀ m, normalise_mac (normalise_mac m) = normalise_mac m) as Hidemp.
  { intros m. unfold normalise_mac at 1. rewrite Hstrip.
    unfold normalise_mac. apply lower_idemp. }
  split; [apply Hidemp|]. split; [apply Hstrip|].
  split; [apply lower_idemp|]. intros address. apply Hidemp.
Qed.

(** X7: whitespace around a MAC does not count: with any run of whitespace
    characters before it and any after it, the MAC normalises to the same
    text. *)
Theorem normalise_mac_ignores_padding (before mac after : string) :
  all_chars isspace before = true →
  all_chars isspace after = true →
  normalise_mac (before +:+ mac +:+ after) = normalise_mac mac.
Proof.
  intros Hbefore Hafter. unfold normalise_mac. f_equal.
  transitivity (strip (mac +:+ after)).
  - unfold strip. by rewrite lstrip_spaces.
  - by apply strip_app_spaces.
Qed.

(** X8: the case of a MAC does not count: two spellings that lower to the
    same text normalise to the same text. *)
Theorem normalise_mac_ignores_case (mac mac' : string) :
  lower mac = lower mac' →
  normalise_mac mac = normalise_mac mac'.
Proof.
  intros Hlower. unfold normalise_mac. by rewrite !lower_strip, Hlower.
Qed.

End mac_addresses.

Section udev.
Import pytext networking_preseed.

Lemma mapM_returned {A B} (f : A → result B) (g : A → B) (l : list A) :
  (∀ x, f x = Returned (g x)) → mapM f l = Returned (g <$> l).
Proof.
  intros Hf. induction l as [|x l IH]; [done|].
  simpl. rewrite Hf. simpl. by rewrite IH.
Qed.

Lemma compose_udev_rule_returns (interface mac : string) :
  compose_udev_rule interface mac
  = Returned
      ("SUBSYSTEM==" +:+ dquote +:+ "net" +:+ dquote
       +:+ ", ACTION==" +:+ dquote +:+ "add" +:+ dquote
       +:+ ", DRIVERS==" +:+ dquote +:+ "?*" +:+ dquote
       +:+ ", ATTR{address}==" +:+ dquote +:+ mac +:+ dquote
       +:+ ", NAME=" +:+ dquote +:+ interface +:+ dquote +:+ newline).
Proof.
  unfold compose_udev_rule, compose_udev_equality,
    compose_udev_attr_equality, compose_udev_setting.
  simpl. by rewrite !string_app_assoc.
Qed.

(** X9: composing udev rules never fails: the assertions on the case of
    the keys hold for the keys the rule is made of, so every interface and
    MAC give a rule, one line that tests SUBSYSTEM, ACTION, DRIVERS and
    the address attribute and sets NAME, and every list of interfaces
    gives a rules file, the rules between its two comment lines. *)
Theorem udev_rules_never_fail (interfaces : list (string * string)) :
  (∀ interface mac,
     compose_udev_rule interface mac
     = Returned
         ("SUBSYSTEM==" +:+ dquote +:+ "net" +:+ dquote
          +:+ ", ACTION==" +:+ dquote +:+ "add" +:+ dquote
          +:+ ", DRIVERS==" +:+ dquote +:+ "?*" +:+ dquote
          +:+ ", ATTR{address}==" +:+ dquote +:+ mac +:+ dquote
          +:+ ", NAME=" +:+ dquote +:+ interface +:+ dquote +:+ newline))
  ∧ (∃ rules,
       mapM (λ entry : string * string, compose_udev_rule entry.1 entry.2)
         interfaces = Returned rules
       ∧ length rules = length interfaces
       ∧ compose_linux_udev_rules_file interfaces
         = Returned
             ("# MAAS-assigned network interface names." +:+ newline
              +:+ String.concat (newline +:+ newline) rules +:+ newline
              +:+ "# End of MAAS-assigned network interface names."
              +:+ newline)).
Proof.
  split; [apply compose_udev_rule_returns|].
  pose proof (mapM_returned
                (λ entry : string * string, compose_udev_rule entry.1 entry.2)
                _ interfaces
                (λ entry, compose_udev_rule_returns entry.1 entry.2)) as Hrules.
  eexists. split; [exact Hrules|]. split; [by rewrite length_fmap|].
  unfold compose_linux_udev_rules_file. by rewrite Hrules.
Qed.

(** X10: a rule names its interface and MAC without ambiguity: two rules
    that are the same text were made for the same interface and the same
    MAC, provided neither MAC contains a double quote. *)
Theorem compose_udev_rule_injective (interface mac interface' mac' : string) :
  all_chars (λ c, negb (Ascii.eqb c "034")) mac = true →
  all_chars (λ c, negb (Ascii.eqb c "034")) mac' = true →
  compose_udev_rule interface mac = compose_udev_rule interface' mac' →
  interface = interface' ∧ mac = mac'.
Proof.
  intros Hmac Hmac'. rewrite !compose_udev_rule_returns.
  intros [= Heq].
  repeat apply (inj (String.append _)) in Heq.
  apply (string_app_inv_stop "034" mac mac') in Heq as [-> Heq]; [|done..].
  split; [|done].
  repeat apply (inj (String.append _)) in Heq.
  by apply string_app_inv_tail in Heq.
Qed.

End udev.

Section lshw.
Import pytext networking_preseed.

Lemma mapM_Forall_returned {A B} (f : A → result B) (g : A → B) (l : list A) :
  Forall (λ x, f x = Returned (g x)) l → mapM f l = Returned (g <$> l).
Proof.
  induction 1 as [|x l Hx _ IH]; [done|].
  simpl. rewrite Hx. simpl. by rewrite IH.
Qed.

Lemma mapM_raised {A B} (f : A → result B) (e : pyexc) (l : list A) :
  Forall (λ x, f x = Raised e ∨ ∃ y, f x = Returned y) l →
  Exists (λ x, f x = Raised e) l →
  mapM f l = Raised e.
Proof.
  induction 1 as [|x l Hx Hl IH]; intros Hex; [by apply Exists_nil in Hex|].
  simpl. destruct Hx as [Hx | [y Hx]]; rewrite Hx; simpl; [done|].
  apply Exists_cons in Hex as [Hex | Hex]; [congruence|].
  by rewrite (IH Hex).
Qed.

Lemma omap_fmap_ext {A B C} (f : A → B) (g : B → option C)
    (h : A → option C) (l : list A) :
  (∀ x, g (f x) = h x) → omap g (f <$> l) = omap h l.
Proof.
  intros Hext. induction l as [|x l IH]; [done|].
  csimpl. by rewrite Hext, IH.
Qed.

Lemma length_omap_le {A B} (f : A → option B) (l : list A) :
  length (omap f l) ≤ length l.
Proof.
  induction l as [|x l IH]; [done|]. csimpl.
  destruct (f x); simpl; lia.
Qed.

(** What the assertions of [extract_network_interface_data] let through:
    an element without names or without MACs, or with one of each. *)
Lemma extract_network_interface_data_cases (element : xml_element) :
  (length (logicalname element) = 0 ∨ length (serial element) = 0 →
     extract_network_interface_data element = Returned (None, None))
  ∧ (length (logicalname element) = 1 → length (serial element) = 1 →
       extract_network_interface_data element
       = Returned (default None (logicalname element !! 0),
                   default None (serial element !! 0)))
  ∧ (length (logicalname element) ≠ 0 → length (serial element) ≠ 0 →
     length (logicalname element) ≠ 1 ∨ length (serial element) ≠ 1 →
       extract_network_interface_data element = Raised AssertionError).
Proof.
  unfold extract_network_interface_data.
  repeat split.
  - intros [Hlen | Hlen]; rewrite Hlen; simpl; [done|].
    by destruct (bool_decide _).
  - intros Hnames Hmacs. by rewrite Hnames, Hmacs.
  - intros Hnames Hmacs Hmany.
    rewrite (bool_decide_eq_false_2 _ Hnames), (bool_decide_eq_false_2 _ Hmacs).
    simpl. destruct Hmany as [Hmany | Hmany].
    + by rewrite (bool_decide_eq_false_2 _ Hmany).
    + rewrite (bool_decide_eq_false_2 _ Hmany).
      by destruct (bool_decide (length (logicalname element) = 1)).
Qed.

Lemma interface_data_single (network_nodes : list xml_element) :
  Forall (λ element, length (logicalname element) ≤ 1
                     ∧ length (serial element) ≤ 1) network_nodes →
  mapM extract_network_interface_data network_nodes
  = Returned
      ((λ element : xml_element,
          match logicalname element, serial element with
          | [interface], [mac] => (interface, mac)
          | _, _ => (None, None)
          end) <$> network_nodes).
Proof.
  intros Hsingle.
  apply mapM_Forall_returned. eapply Forall_impl; [exact Hsingle|].
  intros element [Hnames Hmacs]. simpl in *.
  destruct (extract_network_interface_data_cases element)
    as (Hnone & Hone & _).
  destruct (logicalname element) as [|i [|? ?]] eqn:Hi; simpl in *;
    try lia; [by apply Hnone; left|].
  destruct (serial element) as [|m [|? ?]] eqn:Hm; simpl in *;
    try lia; [by apply Hnone; right|].
  by apply Hone.
Qed.

(** X11: with lshw output in which every network element has at most one
    name and at most one MAC, the interfaces of a node are the elements
    that have both, in document order, with the MAC normalised: an element
    that lacks the name or the MAC, or has an empty one, is left out.  So
    there are never more interfaces than elements and every MAC returned is
    in normal form.  A node without probed details or without lshw output
    has no interfaces. *)
Theorem extract_network_interfaces_normalised (node : Node)
    (network_nodes : list xml_element) :
  probed node = Lshw (Returned network_nodes) →
  Forall (λ element, length (logicalname element) ≤ 1
                     ∧ length (serial element) ≤ 1) network_nodes →
  ∃ interfaces,
    extract_network_interfaces node = Returned interfaces
    ∧ interfaces
      = omap (λ element,
                match logicalname element, serial element with
                | [Some interface], [Some mac] =>
                    Some (interface, normalise_mac mac)
                | _, _ => None
                end) network_nodes
    ∧ length interfaces ≤ length network_nodes
    ∧ (∀ interface mac, (interface, mac) ∈ interfaces →
         normalise_mac mac = mac)
    ∧ ∀ other, probed other = NotProbed ∨ probed other = NoLshw →
        extract_network_interfaces other = Returned [].
Proof.
  intros Hprobed Hsingle.
  pose proof (interface_data_single network_nodes Hsingle) as Hdata.
  set (data := λ element : xml_element, _) in Hdata.
  set (pick := λ entry : option string * option string,
         match entry with
         | (Some interface, Some mac) => Some (interface, normalise_mac mac)
         | _ => None
         end).
  assert (omap pick (data <$> network_nodes)
          = omap (λ element,
                    match logicalname element, serial element with
                    | [Some interface], [Some mac] =>
                        Some (interface, normalise_mac mac)
                    | _, _ => None
                    end) network_nodes) as Hpick.
  { apply omap_fmap_ext. intros element. unfold pick, data.
    destruct (logicalname element) as [|[i|] [|? ?]];
      destruct (serial element) as [|[m|] [|? ?]]; done. }
  exists (omap pick (data <$> network_nodes)).
  split; [|split; [exact Hpick|split; [|split]]].
  - unfold extract_network_interfaces. rewrite Hprobed. simpl.
    by rewrite Hdata.
  - etrans; [apply length_omap_le|]. by rewrite length_fmap.
  - intros interface mac Hin.
    apply list_elem_of_omap in Hin as ([i m] & _ & Hentry).
    unfold pick in Hentry. destruct i, m; try done.
    injection Hentry as _ <-.
    unfold normalise_mac. rewrite <- lower_strip, strip_idemp.
    apply lower_idemp.
  - intros other [Hother | Hother];
      unfold extract_network_interfaces; by rewrite Hother.
Qed.

(** X12: one network element of the lshw output that has a name and a MAC
    but more than one of either makes [extract_network_interfaces] fail
    with an AssertionError, whatever the other elements are; and that is
    the only way it fails on lshw output that parsed. *)
Theorem extract_network_interfaces_asserts (node : Node)
    (network_nodes : list xml_element) :
  probed node = Lshw (Returned network_nodes) →
  (Exists (λ element, length (logicalname element) ≠ 0
                      ∧ length (serial element) ≠ 0
                      ∧ (length (logicalname element) ≠ 1
                         ∨ length (serial element) ≠ 1)) network_nodes →
     extract_network_interfaces node = Raised AssertionError)
  ∧ ∀ e, extract_network_interfaces node = Raised e →
      e = AssertionError
      ∧ Exists (λ element, 1 < length (logicalname element)
                           ∨ 1 < length (serial element)) network_nodes.
Proof.
  intros Hprobed. split.
  - intros Hbad. unfold extract_network_interfaces. rewrite Hprobed. simpl.
    rewrite (mapM_raised _ AssertionError); [done| |].
    + apply Forall_forall. intros element _.
      destruct (extract_network_interface_data_cases element)
        as (Hnone & Hone & Hassert).
      destruct (decide (length (logicalname element) = 0)) as [Hi|Hi];
        [right; eexists; apply Hnone; by left|].
      destruct (decide (length (serial element) = 0)) as [Hm|Hm];
        [right; eexists; apply Hnone; by right|].
      destruct (decide (length (logicalname element) = 1)) as [Hi1|Hi1];
        [|left; apply Hassert; auto].
      destruct (decide (length (serial element) = 1)) as [Hm1|Hm1];
        [|left; apply Hassert; auto].
      right. eexists. by apply Hone.
    + eapply Exists_impl; [exact Hbad|].
      intros element (Hi & Hm & Hmany). simpl.
      by apply (extract_network_interface_data_cases element).
  - intros e Hraised.
    destruct (decide (Forall (λ element, length (logicalname element) ≤ 1
                                         ∧ length (serial element) ≤ 1)
                        network_nodes)) as [Hsingle | Hmany].
    + unfold extract_network_interfaces in Hraised.
      rewrite Hprobed in Hraised. simpl in Hraised.
      by rewrite (interface_data_single network_nodes Hsingle) in Hraised.
    + apply not_Forall_Exists in Hmany; [|intros element; apply _].
      assert (Exists (λ element, 1 < length (logicalname element)
                                 ∨ 1 < length (serial element))
                network_nodes) as Hex.
      { eapply Exists_impl; [exact Hmany|]. intros element Hnot. simpl in *.
        lia. }
      split; [|exact Hex].
      unfold extract_network_interfaces in Hraised.
      rewrite Hprobed in Hraised. simpl in Hraised.
      destruct (mapM extract_network_interface_data network_nodes)
        as [data|e'] eqn:Hdata; [done|].
      simpl in Hraised. injection Hraised as <-.
      clear -Hdata. revert e' Hdata.
      induction network_nodes as [|element l IH]; intros e' Hdata; [done|].
      simpl in Hdata.
      destruct (extract_network_interface_data element) as [d|e0] eqn:Hd.
      * simpl in Hdata. destruct (mapM _ l) as [ds|e1] eqn:Hl; [done|].
        simpl in Hdata. injection Hdata as <-. by apply IH.
      * simpl in Hdata. injection Hdata as <-.
        unfold extract_network_interface_data in Hd.
        destruct (bool_decide _ || bool_decide _); [done|].
        unfold assert in Hd.
        destruct (bool_decide (length (logicalname element) = 1));
          simpl in Hd; [|by injection Hd].
        destruct (bool_decide (length (serial element) = 1));
          simpl in Hd; [done | by injection Hd].
Qed.

End lshw.

Section dns_and_routes.
Import networking_preseed.
Context {netaddr : Netaddr}.

Lemma append_dns_server_cases (cluster : NodeGroup) (ipv4 ipv6 : bool)
    (servers : list (option string)) :
  append_dns_server cluster ipv4 ipv6 servers
  = match get_dns_server_address cluster ipv4 ipv6 with
    | Returned address => Returned (servers ++ [address])
    | Raised e =>
        if decide (e = UnresolvableHost) then Returned servers else Raised e
    end.
Proof.
  unfold append_dns_server.
  destruct (get_dns_server_address cluster ipv4 ipv6) as [a|e]; [done|].
  by destruct (decide (e = UnresolvableHost)) as [->|Hne];
    [rewrite bool_decide_eq_true_2 | rewrite bool_decide_eq_false_2].
Qed.

(** X13: the DNS servers of a node are at most two addresses, the IPv4
    one before the IPv6 one.  A lookup that fails with UnresolvableHost,
    or answers [None], only leaves its address out, whatever the other
    lookup does: with the IPv4 address unresolvable the result is the IPv6
    address alone, with the IPv6 address unresolvable it is the IPv4
    address alone, and with both unresolvable it is empty.  Any other
    exception of a lookup comes out of [list_dns_servers]: that of the
    IPv4 lookup without the IPv6 lookup being consulted, that of the IPv6
    lookup also when the IPv4 address was unresolvable.  For a node with
    IPv4 disabled the IPv4 lookup is not made: the result is that of the
    IPv6 lookup alone. *)
Theorem list_dns_servers_cases (node : Node) :
  let lookup := get_dns_server_address (nodegroup node) in
  let found (answer : result (option string)) : result (list string) :=
    match answer with
    | Returned address => Returned (option_list address)
    | Raised e =>
        if decide (e = UnresolvableHost) then Returned [] else Raised e
    end in
  (∀ servers, list_dns_servers node = Returned servers → length servers ≤ 2)
  ∧ (disable_ipv4 node = true →
       list_dns_servers node
       = match lookup false true with
         | Returned address => Returned (option_list address)
         | Raised e =>
             if decide (e = UnresolvableHost) then Returned [] else Raised e
         end)
  ∧ (disable_ipv4 node = false →
     ∀ ipv4 ipv6, lookup true false = Returned ipv4 →
                  lookup false true = Returned ipv6 →
       list_dns_servers node = Returned (option_list ipv4 ++ option_list ipv6))
  ∧ (disable_ipv4 node = false →
     lookup true false = Raised UnresolvableHost →
     lookup false true = Raised UnresolvableHost →
       list_dns_servers node = Returned [])
  ∧ (disable_ipv4 node = false →
     ∀ ipv6, lookup true false = Raised UnresolvableHost →
             lookup false true = Returned ipv6 →
       list_dns_servers node = Returned (option_list ipv6))
  ∧ (disable_ipv4 node = false →
     ∀ ipv4, lookup true false = Returned ipv4 →
             lookup false true = Raised UnresolvableHost →
       list_dns_servers node = Returned (option_list ipv4))
  ∧ (∀ e, e ≠ UnresolvableHost →
       lookup false true = Raised e →
       (disable_ipv4 node = true
        ∨ (∃ ipv4, lookup true false = Returned ipv4)
        ∨ lookup true false = Raised UnresolvableHost) →
       list_dns_servers node = Raised e)
  ∧ (∀ e, e ≠ UnresolvableHost →
       disable_ipv4 node = false →
       lookup true false = Raised e →
       list_dns_servers node = Raised e)
  ∧ list_dns_servers node
    = (ipv4 ← (if disable_ipv4 node then Returned []
               else found (lookup true false));
       ipv6 ← found (lookup false true);
       Returned (ipv4 ++ ipv6)).
Proof.
  intros lookup found.
  assert (list_dns_servers node
          = (ipv4 ← (if disable_ipv4 node then Returned []
                     else found (lookup true false));
             ipv6 ← found (lookup false true);
             Returned (ipv4 ++ ipv6))) as Hclosed.
  { unfold list_dns_servers.
    pose proof (append_dns_server_cases (nodegroup node)) as Hcases.
    fold lookup in Hcases. unfold found.
    destruct (disable_ipv4 node); simpl.
    - rewrite Hcases.
      destruct (lookup false true) as [[a6|]|e6]; simpl; [done..|].
      by case_decide.
    - rewrite Hcases.
      destruct (lookup true false) as [[a4|]|e4]; simpl.
      + rewrite Hcases.
        destruct (lookup false true) as [[a6|]|e6]; simpl; [done..|].
        by case_decide.
      + rewrite Hcases.
        destruct (lookup false true) as [[a6|]|e6]; simpl; [done..|].
        by case_decide.
      + case_decide; simpl; [|done]. rewrite Hcases.
        destruct (lookup false true) as [[a6|]|e6]; simpl; [done..|].
        by case_decide. }
  split; [|split; [|split; [|split; [|split; [|split; [|split; [|split]]]]]]].
  - intros servers. rewrite Hclosed. unfold found.
    destruct (disable_ipv4 node);
      destruct (lookup true false) as [[a4|]|e4];
      destruct (lookup false true) as [[a6|]|e6];
      simpl; repeat case_decide; simpl;
      intros [= <-]; simpl; lia.
  - intros Hdisabled. rewrite Hclosed, Hdisabled. unfold found.
    destruct (lookup false true) as [[a|]|e]; simpl; [done..|].
    by case_decide.
  - intros Henabled ipv4 ipv6 H4 H6.
    rewrite Hclosed, Henabled, H4, H6. done.
  - intros Henabled H4 H6. rewrite Hclosed, Henabled, H4, H6. unfold found.
    by rewrite decide_True.
  - intros Henabled ipv6 H4 H6. rewrite Hclosed, Henabled, H4, H6.
    unfold found. by rewrite decide_True.
  - intros Henabled ipv4 H4 H6. rewrite Hclosed, Henabled, H4, H6.
    unfold found. rewrite decide_True by done. simpl.
    by rewrite app_nil_r.
  - intros e He H6 Hfirst. rewrite Hclosed, H6. unfold found.
    rewrite (decide_False (P := e = UnresolvableHost)) by done.
    destruct Hfirst as [-> | [[ipv4 ->] | ->]]; [done| |].
    + by destruct (disable_ipv4 node).
    + rewrite decide_True by done. by destruct (disable_ipv4 node).
  - intros e He Henabled H4. rewrite Hclosed, Henabled, H4. unfold found.
    by rewrite decide_False.
  - exact Hclosed.
Qed.

(** X14: a cluster interface gives at most one route, the default route
    through its router, and none when its router is [None] or the empty
    text; in that case the address of the interface is not even parsed.
    The route is the IPv4 one, with network and netmask 0.0.0.0, when the
    interface's own address is IPv4, and the IPv6 one, with network and
    netmask ::, otherwise; an address that does not parse makes the call
    fail when there is a router. *)
Theorem generate_route_entries_cases (cluster_interface : NodeGroupInterface) :
  (router_ip cluster_interface = None ∨ router_ip cluster_interface = Some "" →
     generate_route_entries cluster_interface = Returned [])
  ∧ (∀ routes, generate_route_entries cluster_interface = Returned routes →
       length routes ≤ 1
       ∧ (routes = [] ↔ router_ip cluster_interface = None
                        ∨ router_ip cluster_interface = Some "")
       ∧ ∀ route, route ∈ routes →
           route !! "gateway" = router_ip cluster_interface
           ∧ ∃ address,
               parse_ip (ip cluster_interface) = Returned address
               ∧ route !! "network"
                 = Some (if decide (version address = 4)
                         then "0.0.0.0" else "::")
               ∧ route !! "netmask" = route !! "network")
  ∧ (∀ router e, router_ip cluster_interface = Some router → router ≠ "" →
       parse_ip (ip cluster_interface) = Raised e →
       generate_route_entries cluster_interface = Raised e).
Proof.
  unfold generate_route_entries.
  split; [|split].
  - by intros [-> | ->].
  - intros routes.
    destruct (router_ip cluster_interface) as [router|];
      [|intros [= <-]; split; [simpl; lia|]; split;
        [split; auto | intros route Hin; by apply elem_of_nil in Hin]].
    destruct (decide (router = "")) as [->|Hrouter].
    { simpl. intros [= <-]. split; [simpl; lia|]. split;
        [split; auto | intros route Hin; by apply elem_of_nil in Hin]. }
    rewrite bool_decide_eq_false_2 by done.
    destruct (parse_ip (ip cluster_interface)) as [address|e]; [|done].
    simpl.
    destruct (decide (version address = 4)) as [Hv|Hv];
      [rewrite bool_decide_eq_true_2 by done
      |rewrite bool_decide_eq_false_2 by done];
      intros [= <-]; (split; [simpl; lia|]); (split;
        [split; [done | intros [? | [= ->]]; done]|]);
      intros route ->%list_elem_of_singleton;
      (split; [by simplify_map_eq|]); exists address;
      (split; [done|]); by simplify_map_eq.
  - intros router e -> Hrouter Hparse.
    rewrite bool_decide_eq_false_2 by done. by rewrite Hparse.
Qed.

(** X15: a network entry always has the keys link, type and routes; it has
    the key netmask exactly when the network of the cluster interface is
    IPv4 and the key ip_address exactly when an address was given.  The
    type is ipv4 or ipv6 after the version of the network, and for an IPv4
    network the address given is entered as it is. *)
Theorem generate_network_entry_keys (network_interface : string)
    (cluster_interface : NodeGroupInterface) (address : option string)
    (entry : gmap string entry_value) :
  generate_network_entry network_interface cluster_interface address
  = Returned entry →
  entry !! "link" = Some (Text network_interface)
  ∧ entry !! "type"
    = Some (Text match network_version cluster_interface with
                 | IPv4 => "ipv4"
                 | IPv6 => "ipv6"
                 end)
  ∧ (∃ routes, generate_route_entries cluster_interface = Returned routes
               ∧ entry !! "routes" = Some (Routes routes))
  ∧ (is_Some (entry !! "netmask") ↔ network_version cluster_interface = IPv4)
  ∧ (is_Some (entry !! "ip_address") ↔ is_Some address)
  ∧ (network_version cluster_interface = IPv4 →
       entry !! "ip_address" = Text <$> address
       ∧ entry !! "netmask"
         = Some (Text (network_netmask cluster_interface))).
Proof.
  unfold generate_network_entry.
  destruct (generate_route_entries cluster_interface) as [routes|e] eqn:Hroutes;
    destruct (network_version cluster_interface) eqn:Hversion;
    simpl; try done.
  - destruct address as [a|]; simpl; intros [= <-].
    all: split; [by simplify_map_eq|].
    all: split; [by simplify_map_eq|].
    all: split; [exists routes; by simplify_map_eq|].
    all: split; [split; [done | intros _; eexists; by simplify_map_eq]|].
    all: split; [|intros _; by simplify_map_eq].
    + split; [by eauto | intros _; eexists; by simplify_map_eq].
    + split; intros [? Hsome]; by simplify_map_eq.
  - assert (∀ entry' : gmap string entry_value,
              entry' !! "netmask" = None → ¬ is_Some (entry' !! "netmask"))
      as Hnone by (intros ? -> [? ?]; done).
    destruct address as [a|]; simpl.
    + destruct (ipnetwork_text a (network_netmask cluster_interface))
        as [sized|e] eqn:Hsized; simpl; [|done].
      intros [= <-].
      split; [by simplify_map_eq|]. split; [by simplify_map_eq|].
      split; [exists routes; by simplify_map_eq|].
      split; [split; [|done]; intros Hsome; exfalso;
              revert Hsome; apply Hnone; by simplify_map_eq|].
      split; [|done].
      split; [by eauto | intros _; eexists; by simplify_map_eq].
    + intros [= <-].
      split; [by simplify_map_eq|]. split; [by simplify_map_eq|].
      split; [exists routes; by simplify_map_eq|].
      split; [split; [|done]; intros Hsome; exfalso;
              revert Hsome; apply Hnone; by simplify_map_eq|].
      split; [|done].
      split; intros [? Hsome]; by simplify_map_eq.
Qed.

End dns_and_routes.

Section address_mappings.
Import networking_preseed.
Context {netaddr : Netaddr}.

Lemma elem_of_iter_ips (ips : gset IPAddress) (a : IPAddress) :
  a ∈ iter_ips ips ↔ a ∈ ips.
Proof. rewrite iter_ips_perm. apply elem_of_elements. Qed.

Lemma defaultdict_getitem_value (mapping : gmap string (gset IPAddress))
    (mac : string) :
  (defaultdict_getitem mapping mac).1 = default ∅ (mapping !! mac).
Proof. unfold defaultdict_getitem. by destruct (mapping !! mac). Qed.

Lemma defaultdict_getitem_lookup (mapping : gmap string (gset IPAddress))
    (mac k : string) :
  default ∅ ((defaultdict_getitem mapping mac).2 !! k)
  = default ∅ (mapping !! k).
Proof.
  unfold defaultdict_getitem. destruct (mapping !! mac) eqn:Hmac; [done|].
  simpl. destruct (decide (mac = k)) as [<-|Hne].
  - by rewrite lookup_insert_eq, Hmac.
  - by rewrite lookup_insert_ne.
Qed.

Lemma extract_ip_found (mapping : gmap string (gset IPAddress))
    (mac : string) (ip_version : nat) :
  (extract_ip mapping mac ip_version).1
  = head (filter (λ a, version a = ip_version)
            (iter_ips (default ∅ (mapping !! mac)))).
Proof.
  unfold extract_ip. rewrite <- defaultdict_getitem_value.
  by destruct (defaultdict_getitem mapping mac).
Qed.

Lemma extract_ip_mapping (mapping : gmap string (gset IPAddress))
    (mac : string) (ip_version : nat) :
  (extract_ip mapping mac ip_version).2 = (defaultdict_getitem mapping mac).2.
Proof.
  unfold extract_ip. by destruct (defaultdict_getitem mapping mac).
Qed.

Lemma has_static_ipv6_address_spec (mapping : gmap string (gset IPAddress)) :
  has_static_ipv6_address mapping = true
  ↔ ∃ mac a, a ∈ default ∅ (mapping !! mac) ∧ version a = 6.
Proof.
  unfold has_static_ipv6_address. rewrite existsb_exists. split.
  - intros (ips & Hips & Hany).
    apply list_elem_of_In, list_elem_of_fmap in Hips as ([mac ips'] & -> & Hin).
    apply elem_of_map_to_list in Hin.
    apply existsb_exists in Hany as (a & Ha & Hv).
    apply list_elem_of_In, elem_of_iter_ips in Ha.
    apply bool_decide_eq_true in Hv.
    exists mac, a. by rewrite Hin.
  - intros (mac & a & Ha & Hv).
    destruct (mapping !! mac) as [ips|] eqn:Hmac;
      [|by apply not_elem_of_empty in Ha].
    exists ips. split.
    + apply list_elem_of_In, list_elem_of_fmap. exists (mac, ips).
      split; [done|]. by apply elem_of_map_to_list.
    + apply existsb_exists. exists a. split.
      * by apply list_elem_of_In, elem_of_iter_ips.
      * by apply bool_decide_eq_true.
Qed.

Lemma has_static_ipv6_address_ext (m m' : gmap string (gset IPAddress)) :
  (∀ k, default ∅ (m' !! k) = default ∅ (m !! k)) →
  has_static_ipv6_address m' = has_static_ipv6_address m.
Proof.
  intros Hsame.
  destruct (has_static_ipv6_address m) eqn:Hm.
  - apply has_static_ipv6_address_spec in Hm as (mac & a & Ha & Hv).
    apply has_static_ipv6_address_spec. exists mac, a. by rewrite Hsame.
  - destruct (has_static_ipv6_address m') eqn:Hm'; [|done].
    apply has_static_ipv6_address_spec in Hm' as (mac & a & Ha & Hv).
    rewrite Hsame in Ha. rewrite <- Hm. symmetry.
    apply has_static_ipv6_address_spec. by exists mac, a.
Qed.

Lemma extract_ip_None (mapping : gmap string (gset IPAddress))
    (mac : string) (ip_version : nat) :
  (extract_ip mapping mac ip_version).1 = None
  ↔ ∀ a, a ∈ default ∅ (mapping !! mac) → version a ≠ ip_version.
Proof.
  rewrite extract_ip_found, head_None. split.
  - intros Hnil a Ha Hv.
    assert (a ∈ filter (λ a, version a = ip_version)
                  (iter_ips (default ∅ (mapping !! mac)))) as Hin.
    { apply list_elem_of_filter. split; [done|]. by apply elem_of_iter_ips. }
    rewrite Hnil in Hin. by apply elem_of_nil in Hin.
  - intros Hnone.
    destruct (filter _ _) as [|a l] eqn:Hfilter; [done|].
    assert (a ∈ filter (λ a, version a = ip_version)
                  (iter_ips (default ∅ (mapping !! mac)))) as Hin
      by (rewrite Hfilter; apply list_elem_of_here).
    apply list_elem_of_filter in Hin as [Hv Hin].
    apply elem_of_iter_ips in Hin. by destruct (Hnone a Hin).
Qed.

Lemma extract_ip_Some (mapping : gmap string (gset IPAddress))
    (mac : string) (ip_version : nat) (a : IPAddress) :
  (extract_ip mapping mac ip_version).1 = Some a →
  a ∈ default ∅ (mapping !! mac) ∧ version a = ip_version.
Proof.
  rewrite extract_ip_found. intros Hhead.
  assert (a ∈ filter (λ a, version a = ip_version)
                (iter_ips (default ∅ (mapping !! mac)))) as Hin.
  { destruct (filter _ _) as [|b l]; [done|].
    injection Hhead as ->. apply list_elem_of_here. }
  apply list_elem_of_filter in Hin as [Hv Hin].
  by apply elem_of_iter_ips in Hin.
Qed.

(** X16: looking an address up in a mapping finds an address of the
    wanted version among those recorded for the MAC, and finds none
    exactly when none is recorded.  The lookup adds an empty entry for a
    MAC the mapping did not have, as a [defaultdict] does, and changes
    nothing else: the addresses recorded for every MAC, the answer of
    every later lookup and the answer of [has_static_ipv6_address] are
    what they were. *)
Theorem extract_ip_spec (mapping : gmap string (gset IPAddress))
    (mac : string) (ip_version : nat) :
  let found := (extract_ip mapping mac ip_version).1 in
  let mapping' := (extract_ip mapping mac ip_version).2 in
  (found = None
   ↔ ∀ a, a ∈ default ∅ (mapping !! mac) → version a ≠ ip_version)
  ∧ (∀ a, found = Some a →
       a ∈ default ∅ (mapping !! mac) ∧ version a = ip_version)
  ∧ (mapping !! mac = None → mapping' = <[mac := ∅]> mapping)
  ∧ (is_Some (mapping !! mac) → mapping' = mapping)
  ∧ (∀ k, default ∅ (mapping' !! k) = default ∅ (mapping !! k))
  ∧ (∀ mac' ip_version',
       (extract_ip mapping' mac' ip_version').1
       = (extract_ip mapping mac' ip_version').1)
  ∧ has_static_ipv6_address mapping' = has_static_ipv6_address mapping.
Proof.
  intros found mapping'.
  assert (∀ k, default ∅ (mapping' !! k) = default ∅ (mapping !! k)) as Hsame.
  { intros k. unfold mapping'. rewrite extract_ip_mapping.
    apply defaultdict_getitem_lookup. }
  split; [apply extract_ip_None|]. split; [apply extract_ip_Some|].
  split; [|split; [|split; [done|split]]].
  - intros Hmac. unfold mapping'. rewrite extract_ip_mapping.
    unfold defaultdict_getitem. by rewrite Hmac.
  - intros [ips Hmac]. unfold mapping'. rewrite extract_ip_mapping.
    unfold defaultdict_getitem. by rewrite Hmac.
  - intros mac' v'. by rewrite !extract_ip_found, Hsame.
  - by apply has_static_ipv6_address_ext.
Qed.

(** X17: a mapping has a static IPv6 address exactly when some MAC has an
    IPv6 address recorded, which is when [extract_ip] finds an address of
    version 6 for some MAC; an empty mapping, or one with IPv4 addresses
    only, has none. *)
Theorem has_static_ipv6_address_iff (mapping : gmap string (gset IPAddress)) :
  (has_static_ipv6_address mapping = true
   ↔ ∃ mac ips a, mapping !! mac = Some ips ∧ a ∈ ips ∧ version a = 6)
  ∧ (has_static_ipv6_address mapping = true
     ↔ ∃ mac, (extract_ip mapping mac 6).1 ≠ None)
  ∧ has_static_ipv6_address ∅ = false
  ∧ ((∀ mac ips a, mapping !! mac = Some ips → a ∈ ips → version a = 4) →
       has_static_ipv6_address mapping = false).
Proof.
  assert (has_static_ipv6_address mapping = true
          ↔ ∃ mac ips a, mapping !! mac = Some ips ∧ a ∈ ips ∧ version a = 6)
    as Hiff.
  { rewrite has_static_ipv6_address_spec. split.
    - intros (mac & a & Ha & Hv).
      destruct (mapping !! mac) as [ips|] eqn:Hmac;
        [|by apply not_elem_of_empty in Ha].
      by exists mac, ips, a.
    - intros (mac & ips & a & Hmac & Ha & Hv). exists mac, a.
      by rewrite Hmac. }
  split; [exact Hiff|]. split; [|split].
  - rewrite has_static_ipv6_address_spec. split.
    + intros (mac & a & Ha & Hv). exists mac. intros Hnone.
      by apply (proj1 (extract_ip_None mapping mac 6) Hnone a).
    + intros (mac & Hsome).
      destruct ((extract_ip mapping mac 6).1) as [a|] eqn:Hfound; [|done].
      apply extract_ip_Some in Hfound as [Ha Hv].
      by exists mac, a.
  - done.
  - intros Hv4. apply not_true_is_false. intros Hhas.
    apply Hiff in Hhas as (mac & ips & a & Hmac & Ha & Hv).
    rewrite (Hv4 mac ips a Hmac Ha) in Hv. lia.
Qed.

End address_mappings.

Section recording_addresses.
Import networking_preseed.
Context {netaddr : Netaddr}.

Lemma add_ip_to_mapping_resolved (mapping : gmap string (gset IPAddress))
    (macaddress : MACAddress) (argument : ip_argument) (a : IPAddress) :
  argument ≠ IPText "" →
  match argument with
  | IPText text => parse_ip text
  | IPObject address => Returned address
  end = Returned a →
  ∃ mapping',
    add_ip_to_mapping mapping macaddress (Some argument) = Returned mapping'
    ∧ mapping' !! extract_mac_string macaddress
      = Some ({[a]} ∪ default ∅ (mapping !! extract_mac_string macaddress))
    ∧ ∀ k, k ≠ extract_mac_string macaddress → mapping' !! k = mapping !! k.
Proof.
  intros Hblank Hparse. unfold add_ip_to_mapping.
  rewrite bool_decide_eq_false_2 by done. rewrite Hparse. simpl.
  pose proof (defaultdict_getitem_value mapping
                (extract_mac_string macaddress)) as Hvalue.
  destruct (defaultdict_getitem mapping (extract_mac_string macaddress))
    as [ips touched] eqn:Hget.
  simpl in Hvalue. subst ips.
  eexists. split; [done|]. split; [by rewrite lookup_insert_eq|].
  intros k Hk. rewrite lookup_insert_ne by done.
  unfold defaultdict_getitem in Hget.
  destruct (mapping !! extract_mac_string macaddress);
    injection Hget as <-; [done|]. by rewrite lookup_insert_ne.
Qed.

(** X18: [add_ip_to_mapping] leaves the mapping as it is for the address
    [None] and for the empty text, and fails, recording nothing, for text
    that is no address.  An address that it records goes to the entry of
    the normalised MAC, beside the addresses already there, and no other
    entry changes; a lookup of that MAC for the version of the address
    then finds an address of that version, this very address when none of
    that version was recorded before, and recording an IPv6 address makes
    [has_static_ipv6_address] true. *)
Theorem add_ip_to_mapping_then_extract (mapping : gmap string (gset IPAddress))
    (macaddress : MACAddress) :
  let mac := extract_mac_string macaddress in
  add_ip_to_mapping mapping macaddress None = Returned mapping
  ∧ add_ip_to_mapping mapping macaddress (Some (IPText "")) = Returned mapping
  ∧ (∀ text e, text ≠ "" → parse_ip text = Raised e →
       add_ip_to_mapping mapping macaddress (Some (IPText text)) = Raised e)
  ∧ ∀ argument a,
      argument ≠ IPText "" →
      match argument with
      | IPText text => parse_ip text
      | IPObject address => Returned address
      end = Returned a →
      ∃ mapping',
        add_ip_to_mapping mapping macaddress (Some argument) = Returned mapping'
        ∧ mapping' !! mac = Some ({[a]} ∪ default ∅ (mapping !! mac))
        ∧ (∀ k, k ≠ mac → mapping' !! k = mapping !! k)
        ∧ (∃ found, (extract_ip mapping' mac (version a)).1 = Some found
                    ∧ version found = version a)
        ∧ ((∀ other, other ∈ default ∅ (mapping !! mac) →
                     version other ≠ version a) →
             (extract_ip mapping' mac (version a)).1 = Some a)
        ∧ (version a = 6 → has_static_ipv6_address mapping' = true).
Proof.
  intros mac. split; [done|]. split; [done|]. split.
  { intros text e Htext Hparse. unfold add_ip_to_mapping.
    rewrite bool_decide_eq_false_2 by congruence. by rewrite Hparse. }
  intros argument a Hblank Hparse.
  destruct (add_ip_to_mapping_resolved mapping macaddress argument a
              Hblank Hparse) as (mapping' & Hadd & Hmac & Hother).
  fold mac in Hmac, Hother.
  exists mapping'. split; [done|]. split; [done|]. split; [done|].
  assert (∃ found, (extract_ip mapping' mac (version a)).1 = Some found)
    as [found Hfound].
  { destruct ((extract_ip mapping' mac (version a)).1) as [found|] eqn:Hnone;
      [by eexists|].
    pose proof (proj1 (extract_ip_None mapping' mac (version a)) Hnone a)
      as Hno.
    rewrite Hmac in Hno. simpl in Hno. destruct Hno; [set_solver | done]. }
  pose proof (extract_ip_Some mapping' mac (version a) found Hfound)
    as [Hin Hversion].
  rewrite Hmac in Hin. simpl in Hin.
  split; [by exists found|]. split.
  - intros Hfresh. rewrite Hfound. f_equal.
    apply elem_of_union in Hin as [Hin | Hin]; [set_solver|].
    by destruct (Hfresh found Hin).
  - intros Hv6. apply has_static_ipv6_address_spec. exists mac, a.
    rewrite Hmac. simpl. split; [set_solver | done].
Qed.

End recording_addresses.

Section building_mappings.
Import networking_preseed.
Context {netaddr : Netaddr}.

Lemma add_ip_to_mapping_field (mapping mapping' : gmap string (gset IPAddress))
    (macaddress : MACAddress) (field : option string) :
  add_ip_to_mapping mapping macaddress (IPText <$> field) = Returned mapping' →
  ∀ k a, a ∈ default ∅ (mapping' !! k)
         ↔ a ∈ default ∅ (mapping !! k)
           ∨ (extract_mac_string macaddress = k ∧ holds_address field a).
Proof.
  intros Hadd k a. unfold holds_address.
  destruct field as [text|];
    [change (IPText <$> Some text) with (Some (IPText text)) in Hadd
    |change (IPText <$> None) with (@None ip_argument) in Hadd].
  - destruct (decide (text = "")) as [->|Htext].
    + injection Hadd as <-. naive_solver.
    + destruct (parse_ip text) as [a0|e] eqn:Hparse.
      * destruct (add_ip_to_mapping_resolved mapping macaddress (IPText text)
                    a0) as (m & Hm & Hmac & Hother);
          [congruence | done |].
        rewrite Hadd in Hm. injection Hm as <-.
        destruct (decide (k = extract_mac_string macaddress)) as [->|Hk].
        -- rewrite Hmac. simpl. rewrite elem_of_union, elem_of_singleton.
           split.
           ++ intros [-> | Hin]; [|by left]. right. split; [done|]. eauto.
           ++ intros [Hin | (_ & t & [= <-] & _ & Hp)]; [by right|].
              left. congruence.
        -- rewrite (Hother k Hk). split; [by left|].
           intros [Hin | [Heq _]]; [done | congruence].
      * unfold add_ip_to_mapping in Hadd.
        rewrite bool_decide_eq_false_2 in Hadd by congruence.
        by rewrite Hparse in Hadd.
  - injection Hadd as <-. naive_solver.
Qed.

Lemma for_each_add_macs (macs : list MACAddress) (field : option string) :
  ∀ mapping mapping',
    for_each (λ mapping mac,
                add_ip_to_mapping mapping mac (IPText <$> field))
      macs mapping = Returned mapping' →
    ∀ k a, a ∈ default ∅ (mapping' !! k)
           ↔ a ∈ default ∅ (mapping !! k)
             ∨ ∃ mac, mac ∈ macs ∧ extract_mac_string mac = k
                      ∧ holds_address field a.
Proof.
  induction macs as [|mac macs IH]; intros mapping mapping' Hloop k a.
  - injection Hloop as <-. split; [by left|].
    intros [Hin | (mac & Hmac & _)]; [done | by apply elem_of_nil in Hmac].
  - simpl in Hloop.
    destruct (add_ip_to_mapping mapping mac (IPText <$> field))
      as [m1|e] eqn:Hadd; [|done].
    simpl in Hloop. rewrite (IH m1 mapping' Hloop k a).
    rewrite (add_ip_to_mapping_field mapping m1 mac field Hadd k a).
    split.
    + intros [[Hin | [Hk Hfield]] | (mac' & Hmac' & Hk & Hfield)].
      * by left.
      * right. exists mac. split; [apply list_elem_of_here | done].
      * right. exists mac'. split; [by apply list_elem_of_further | done].
    + intros [Hin | (mac' & Hmac' & Hk & Hfield)]; [by left; left|].
      apply elem_of_cons in Hmac' as [-> | Hmac'].
      * left; right. done.
      * right. by exists mac'.
Qed.

Lemma for_each_cluster_interfaces (mac : MACAddress)
    (interfaces : list NodeGroupInterface) :
  ∀ mapping mapping',
    for_each (λ mapping cluster_interface,
                if manages_static_range cluster_interface then
                  add_ip_to_mapping mapping mac
                    (IPText <$> router_ip cluster_interface)
                else Returned mapping)
      interfaces mapping = Returned mapping' →
    ∀ k a, a ∈ default ∅ (mapping' !! k)
           ↔ a ∈ default ∅ (mapping !! k)
             ∨ (extract_mac_string mac = k
                ∧ ∃ cluster_interface,
                    cluster_interface ∈ interfaces
                    ∧ manages_static_range cluster_interface = true
                    ∧ holds_address (router_ip cluster_interface) a).
Proof.
  induction interfaces as [|ci interfaces IH];
    intros mapping mapping' Hloop k a.
  - injection Hloop as <-. split; [by left|].
    intros [Hin | (_ & ci & Hci & _)]; [done | by apply elem_of_nil in Hci].
  - simpl in Hloop.
    destruct (manages_static_range ci) eqn:Hmanages.
    + destruct (add_ip_to_mapping mapping mac (IPText <$> router_ip ci))
        as [m1|e] eqn:Hadd; [|done].
      simpl in Hloop. rewrite (IH m1 mapping' Hloop k a).
      rewrite (add_ip_to_mapping_field mapping m1 mac _ Hadd k a).
      split.
      * intros [[Hin | [Hk Hfield]] | (Hk & ci' & Hci' & Hm & Hfield)].
        -- by left.
        -- right. split; [done|]. exists ci.
           split; [apply list_elem_of_here | done].
        -- right. split; [done|]. exists ci'.
           split; [by apply list_elem_of_further | done].
      * intros [Hin | (Hk & ci' & Hci' & Hm & Hfield)]; [by left; left|].
        apply elem_of_cons in Hci' as [-> | Hci'].
        -- left; right. done.
        -- right. split; [done|]. by exists ci'.
    + simpl in Hloop. rewrite (IH mapping mapping' Hloop k a).
      split.
      * intros [Hin | (Hk & ci' & Hci' & Hm & Hfield)]; [by left|].
        right. split; [done|]. exists ci'.
        split; [by apply list_elem_of_further | done].
      * intros [Hin | (Hk & ci' & Hci' & Hm & Hfield)]; [by left|].
        apply elem_of_cons in Hci' as [-> | Hci']; [congruence|].
        right. split; [done|]. by exists ci'.
Qed.

(** X19: the mapping of static addresses of a node holds, under each
    normalised MAC, exactly the addresses of the node's static address
    rows that are linked to a MAC normalising to it; rows whose address is
    [None] or empty add nothing, and MACs that differ only in case or
    surrounding whitespace share one entry.  A node without such rows has
    the empty mapping. *)
Theorem map_static_ips_spec (node : Node)
    (mapping : gmap string (gset IPAddress)) :
  map_static_ips node = Returned mapping →
  (∀ mac a, a ∈ default ∅ (mapping !! mac)
            ↔ ∃ sip macaddress,
                sip ∈ static_ip_addresses node
                ∧ macaddress ∈ sip_macaddress_set sip
                ∧ extract_mac_string macaddress = mac
                ∧ holds_address (sip_ip sip) a)
  ∧ (static_ip_addresses node = [] → mapping = ∅).
Proof.
  unfold map_static_ips. intros Hloop. split.
  - assert (∀ rows m m',
              for_each
                (λ mapping sip,
                   for_each
                     (λ mapping mac,
                        add_ip_to_mapping mapping mac (IPText <$> sip_ip sip))
                     (sip_macaddress_set sip) mapping) rows m = Returned m' →
              ∀ mac a, a ∈ default ∅ (m' !! mac)
                       ↔ a ∈ default ∅ (m !! mac)
                         ∨ ∃ sip macaddress,
                             sip ∈ rows
                             ∧ macaddress ∈ sip_macaddress_set sip
                             ∧ extract_mac_string macaddress = mac
                             ∧ holds_address (sip_ip sip) a) as Hrows.
    { induction rows as [|sip rows IH]; intros m m' Hfor mac a.
      - injection Hfor as <-. split; [by left|].
        intros [Hin | (sip & ? & Hsip & _)];
          [done | by apply elem_of_nil in Hsip].
      - simpl in Hfor.
        destruct (for_each _ (sip_macaddress_set sip) m) as [m1|e] eqn:Hinner;
          [|done].
        simpl in Hfor. rewrite (IH m1 m' Hfor mac a).
        rewrite (for_each_add_macs _ _ m m1 Hinner mac a).
        split.
        + intros [[Hin | (ma & Hma & Hk & Hf)] | (sip' & ma & Hs & Hma & Hk & Hf)].
          * by left.
          * right. exists sip, ma. split; [apply list_elem_of_here | done].
          * right. exists sip', ma.
            split; [by apply list_elem_of_further | done].
        + intros [Hin | (sip' & ma & Hs & Hma & Hk & Hf)]; [by left; left|].
          apply elem_of_cons in Hs as [-> | Hs].
          * left; right. by exists ma.
          * right. by exists sip', ma. }
    intros mac a. rewrite (Hrows _ _ _ Hloop mac a).
    rewrite lookup_empty. simpl. split; [|by right].
    intros [Hin | Hrec]; [by apply not_elem_of_empty in Hin | done].
  - intros Hnone. rewrite Hnone in Hloop. by injection Hloop as <-.
Qed.

(** X20: the mapping of gateways of a node holds, under each normalised
    MAC of the node, exactly the router addresses of the cluster
    interfaces of that MAC that manage a static range; an interface that
    manages none, or has no router, adds nothing. *)
Theorem map_gateways_spec (node : Node)
    (mapping : gmap string (gset IPAddress)) :
  map_gateways node = Returned mapping →
  ∀ mac a, a ∈ default ∅ (mapping !! mac)
           ↔ ∃ macaddress cluster_interface,
               macaddress ∈ macaddress_set node
               ∧ extract_mac_string macaddress = mac
               ∧ cluster_interface ∈ get_cluster_interfaces macaddress
               ∧ manages_static_range cluster_interface = true
               ∧ holds_address (router_ip cluster_interface) a.
Proof.
  unfold map_gateways. intros Hloop.
  assert (∀ macs m m',
            for_each
              (λ mapping mac,
                 for_each
                   (λ mapping cluster_interface,
                      if manages_static_range cluster_interface then
                        add_ip_to_mapping mapping mac
                          (IPText <$> router_ip cluster_interface)
                      else Returned mapping)
                   (get_cluster_interfaces mac) mapping) macs m = Returned m' →
            ∀ mac a, a ∈ default ∅ (m' !! mac)
                     ↔ a ∈ default ∅ (m !! mac)
                       ∨ ∃ macaddress cluster_interface,
                           macaddress ∈ macs
                           ∧ extract_mac_string macaddress = mac
                           ∧ cluster_interface
                               ∈ get_cluster_interfaces macaddress
                           ∧ manages_static_range cluster_interface = true
                           ∧ holds_address (router_ip cluster_interface) a)
    as Hmacs.
  { induction macs as [|ma macs IH]; intros m m' Hfor mac a.
    - injection Hfor as <-. split; [by left|].
      intros [Hin | (ma & ? & Hma & _)]; [done | by apply elem_of_nil in Hma].
    - simpl in Hfor.
      destruct (for_each _ (get_cluster_interfaces ma) m) as [m1|e] eqn:Hinner;
        [|done].
      simpl in Hfor. rewrite (IH m1 m' Hfor mac a).
      rewrite (for_each_cluster_interfaces _ _ m m1 Hinner mac a).
      split.
      + intros [[Hin | (Hk & ci & Hci & Hm & Hf)]
               | (ma' & ci & Hma & Hk & Hci & Hm & Hf)].
        * by left.
        * right. exists ma, ci. split; [apply list_elem_of_here | done].
        * right. exists ma', ci.
          split; [by apply list_elem_of_further | done].
      + intros [Hin | (ma' & ci & Hma & Hk & Hci & Hm & Hf)]; [by left; left|].
        apply elem_of_cons in Hma as [-> | Hma].
        * left; right. split; [done|]. by exists ci.
        * right. by exists ma', ci. }
  intros mac a. rewrite (Hmacs _ _ _ Hloop mac a).
  rewrite lookup_empty. simpl. split; [|by right].
  intros [Hin | Hrec]; [by apply not_elem_of_empty in Hin | done].
Qed.

End building_mappings.

Section debian_interfaces.
Import pytext networking_preseed.
Context {netaddr : Netaddr}.

(** The loop over the interfaces, with the lookups made in the mappings as
    they were before the loop: the entries the lookups leave behind do not
    change what later lookups find. *)
Lemma foldl_add_interface_stanzas (disable : bool)
    (static_ips gateways : gmap string (gset IPAddress))
    (interfaces : list (string * string)) :
  ∀ stanzas static_ips' gateways',
    (∀ k, default ∅ (static_ips' !! k) = default ∅ (static_ips !! k)) →
    (∀ k, default ∅ (gateways' !! k) = default ∅ (gateways !! k)) →
    (foldl (add_interface_stanzas disable)
       (stanzas, static_ips', gateways') interfaces).1.1
    = stanzas
      ++ concat
           ((λ entry : string * string,
               ["auto " +:+ entry.1]
               ++ (if disable then []
                   else [compose_debian_network_interfaces_ipv4_stanza entry.1])
               ++ match (extract_ip static_ips entry.2 6).1 with
                  | Some static_ipv6 =>
                      [compose_debian_network_interfaces_ipv6_stanza entry.1
                         (ip_text static_ipv6)
                         (ip_text <$> (extract_ip gateways entry.2 6).1)]
                  | None => []
                  end) <$> interfaces).
Proof.
  induction interfaces as [|[interface mac] interfaces IH];
    intros stanzas static_ips' gateways' Hstatic Hgateways.
  - simpl. by rewrite app_nil_r.
  - cbn [foldl fmap list_fmap concat].
    unfold add_interface_stanzas at 2.
    pose proof (extract_ip_found static_ips' mac 6) as Hfound.
    pose proof (extract_ip_mapping static_ips' mac 6) as Htouched.
    destruct (extract_ip static_ips' mac 6) as [static_ipv6 static_ips'']
      eqn:Hextract.
    simpl in Hfound, Htouched.
    assert (∀ k, default ∅ (static_ips'' !! k) = default ∅ (static_ips !! k))
      as Hstatic''.
    { intros k. rewrite Htouched, defaultdict_getitem_lookup. apply Hstatic. }
    assert (static_ipv6 = (extract_ip static_ips mac 6).1) as Hsame.
    { by rewrite Hfound, extract_ip_found, Hstatic. }
    destruct static_ipv6 as [static_ipv6|].
    + pose proof (extract_ip_found gateways' mac 6) as Hgw.
      pose proof (extract_ip_mapping gateways' mac 6) as Hgwtouched.
      destruct (extract_ip gateways' mac 6) as [gateway gateways'']
        eqn:Hextract'.
      simpl in Hgw, Hgwtouched.
      assert (∀ k, default ∅ (gateways'' !! k) = default ∅ (gateways !! k))
        as Hgateways''.
      { intros k. rewrite Hgwtouched, defaultdict_getitem_lookup.
        apply Hgateways. }
      assert (gateway = (extract_ip gateways mac 6).1) as Hsamegw.
      { by rewrite Hgw, extract_ip_found, Hgateways. }
      rewrite (IH _ _ _ Hstatic'' Hgateways''). simpl.
      rewrite <- Hsame, <- Hsamegw.
      destruct disable; simpl; by rewrite <- !app_assoc.
    + rewrite (IH _ _ _ Hstatic'' Hgateways). simpl. rewrite <- Hsame.
      destruct disable; simpl; by rewrite <- !app_assoc.
Qed.

Lemma debian_stanzas_returned (node : Node)
    (static_ips gateways : gmap string (gset IPAddress))
    (interfaces : list (string * string)) :
  map_static_ips node = Returned static_ips →
  map_gateways node = Returned gateways →
  extract_network_interfaces node = Returned interfaces →
  debian_stanzas node
  = Returned
      ("auto lo"
       :: concat
            ((λ entry : string * string,
                ["auto " +:+ entry.1]
                ++ (if disable_ipv4 node && has_static_ipv6_address static_ips
                    then []
                    else [compose_debian_network_interfaces_ipv4_stanza
                            entry.1])
                ++ match (extract_ip static_ips entry.2 6).1 with
                   | Some static_ipv6 =>
                       [compose_debian_network_interfaces_ipv6_stanza entry.1
                          (ip_text static_ipv6)
                          (ip_text <$> (extract_ip gateways entry.2 6).1)]
                   | None => []
                   end) <$> interfaces)).
Proof.
  intros Hstatic Hgateways Hinterfaces. unfold debian_stanzas.
  rewrite Hstatic. simpl. rewrite Hgateways. simpl.
  rewrite Hinterfaces. simpl.
  by rewrite (foldl_add_interface_stanzas _ static_ips gateways).
Qed.

(** X21: the interfaces file of a node is its stanzas, separated by blank
    lines, with a final newline.  The stanzas are [auto lo] and then, for
    each interface of the node in turn, [auto] for the interface, the
    DHCPv4 stanza, and the static IPv6 stanza when the MAC of the interface
    has a static IPv6 address, with the IPv6 gateway of that MAC if there
    is one.  The DHCPv4 stanzas are left out only for a node that has IPv4
    disabled and has a static IPv6 address: a node with IPv4 disabled but
    no static IPv6 address still gets a DHCPv4 stanza for every
    interface. *)
Theorem compose_debian_network_interfaces_file_spec (node : Node)
    (static_ips gateways : gmap string (gset IPAddress))
    (interfaces : list (string * string)) :
  map_static_ips node = Returned static_ips →
  map_gateways node = Returned gateways →
  extract_network_interfaces node = Returned interfaces →
  ∃ stanzas,
    debian_stanzas node = Returned stanzas
    ∧ stanzas
      = "auto lo"
        :: concat
             ((λ entry : string * string,
                 ["auto " +:+ entry.1]
                 ++ (if disable_ipv4 node
                        && has_static_ipv6_address static_ips
                     then []
                     else [compose_debian_network_interfaces_ipv4_stanza
                             entry.1])
                 ++ match (extract_ip static_ips entry.2 6).1 with
                    | Some static_ipv6 =>
                        [compose_debian_network_interfaces_ipv6_stanza
                           entry.1 (ip_text static_ipv6)
                           (ip_text <$> (extract_ip gateways entry.2 6).1)]
                    | None => []
                    end) <$> interfaces)
    ∧ compose_debian_network_interfaces_file node
      = Returned (String.concat (newline +:+ newline) stanzas +:+ newline)
    ∧ head stanzas = Some "auto lo"
    ∧ (∀ interface mac, (interface, mac) ∈ interfaces →
         "auto " +:+ interface ∈ stanzas)
    ∧ (disable_ipv4 node = false ∨ has_static_ipv6_address static_ips = false →
       ∀ interface mac, (interface, mac) ∈ interfaces →
         "iface " +:+ interface +:+ " inet dhcp" ∈ stanzas)
    ∧ (∀ interface mac static_ipv6,
         (interface, mac) ∈ interfaces →
         (extract_ip static_ips mac 6).1 = Some static_ipv6 →
         compose_debian_network_interfaces_ipv6_stanza interface
           (ip_text static_ipv6)
           (ip_text <$> (extract_ip gateways mac 6).1) ∈ stanzas)
    ∧ (disable_ipv4 node = true → has_static_ipv6_address static_ips = true →
       length stanzas
       = 1 + length interfaces
         + length (filter (λ entry : string * string,
                             is_Some (extract_ip static_ips entry.2 6).1)
                     interfaces))
    ∧ (disable_ipv4 node = false ∨ has_static_ipv6_address static_ips = false →
       length stanzas
       = 1 + 2 * length interfaces
         + length (filter (λ entry : string * string,
                             is_Some (extract_ip static_ips entry.2 6).1)
                     interfaces)).
Proof.
  intros Hstatic Hgateways Hinterfaces.
  pose proof (debian_stanzas_returned node static_ips gateways interfaces
                Hstatic Hgateways Hinterfaces) as Hstanzas.
  set (disable := disable_ipv4 node && has_static_ipv6_address static_ips)
    in Hstanzas.
  set (per_interface := λ entry : string * string, _) in Hstanzas.
  exists ("auto lo" :: concat (per_interface <$> interfaces)).
  split; [exact Hstanzas|]. split; [done|]. split.
  { unfold compose_debian_network_interfaces_file. by rewrite Hstanzas. }
  split; [done|].
  assert (∀ entry stanza, entry ∈ interfaces → stanza ∈ per_interface entry →
            stanza ∈ "auto lo" :: concat (per_interface <$> interfaces))
    as Hmember.
  { intros entry stanza Hentry Hstanza. apply list_elem_of_further.
    apply list_elem_of_In, in_concat. exists (per_interface entry).
    split; [|by apply list_elem_of_In].
    apply list_elem_of_In, list_elem_of_fmap. by exists entry. }
  assert (∀ l : list (string * string),
            length (concat (per_interface <$> l))
            = (if disable then 1 else 2) * length l
              + length (filter (λ entry : string * string,
                                  is_Some (extract_ip static_ips entry.2 6).1)
                          l)) as Hlength.
  { induction l as [|entry l IH]; [by destruct disable|].
    cbn [fmap list_fmap concat]. rewrite length_app, IH.
    rewrite filter_cons. unfold per_interface at 1.
    destruct ((extract_ip static_ips entry.2 6).1) as [a|] eqn:Hfound.
    - rewrite decide_True by eauto. destruct disable; simpl; lia.
    - rewrite decide_False by (by intros [? ?]).
      destruct disable; simpl; lia. }
  split; [|split; [|split; [|split]]].
  - intros interface mac Hin. apply (Hmember (interface, mac)); [done|].
    apply list_elem_of_here.
  - intros Hkeep interface mac Hin.
    apply (Hmember (interface, mac)); [done|].
    assert (disable = false) as ->.
    { unfold disable. destruct Hkeep as [-> | ->]; [done|].
      by destruct (disable_ipv4 node). }
    apply list_elem_of_further, list_elem_of_here.
  - intros interface mac static_ipv6 Hin Hfound.
    apply (Hmember (interface, mac)); [done|].
    unfold per_interface. simpl. rewrite Hfound.
    destruct disable.
    + apply list_elem_of_further, list_elem_of_here.
    + do 2 apply list_elem_of_further. apply list_elem_of_here.
  - intros Hdisabled Hhas. simpl. rewrite Hlength.
    unfold disable. rewrite Hdisabled, Hhas. simpl. lia.
  - intros Hkeep. simpl. rewrite Hlength.
    assert (disable = false) as ->.
    { unfold disable. destruct Hkeep as [-> | ->]; [done|].
      by destruct (disable_ipv4 node). }
    lia.
Qed.

End debian_interfaces.

Section preseed.
Import pytext networking_preseed.

Lemma extract_network_interfaces_macs (node : Node)
    (interfaces : list (string * string)) (interface mac : string) :
  extract_network_interfaces node = Returned interfaces →
  (interface, mac) ∈ interfaces →
  normalise_mac mac = mac.
Proof.
  unfold extract_network_interfaces.
  destruct (probed node) as [| |parsed].
  - intros [= <-] Hin. by apply elem_of_nil in Hin.
  - intros [= <-] Hin. by apply elem_of_nil in Hin.
  - destruct parsed as [network_nodes|e]; [|done]. simpl.
    destruct (mapM extract_network_interface_data network_nodes)
      as [data|e]; [|done].
    simpl. intros [= <-] Hin.
    apply list_elem_of_omap in Hin as ([[i|] [m|]] & _ & Hentry);
      try done.
    injection Hentry as _ <-.
    unfold normalise_mac. rewrite <- lower_strip, strip_idemp.
    apply lower_idemp.
Qed.

(** X22: the networking preseed of a node has the provider MAAS, no
    networks, at most two services, each of type dns, and one link of type
    phy for every interface found in the lshw output, in the same order,
    under the interface's name and with its MAC in normal form.  It fails
    when the interfaces cannot be extracted, and an unresolvable DNS host
    is no failure. *)
Theorem generate_networking_config_spec (node : Node) :
  (∀ config, generate_networking_config node = Returned config →
     provider config = "MAAS"
     ∧ networks config = []
     ∧ length (services config) ≤ 2
     ∧ (∀ service, service ∈ services config →
          service !! "type" = Some "dns" ∧ is_Some (service !! "address"))
     ∧ ∃ interfaces,
         extract_network_interfaces node = Returned interfaces
         ∧ length (links config) = length interfaces
         ∧ ∀ n interface mac, interfaces !! n = Some (interface, mac) →
             ∃ link, links config !! n = Some link
                     ∧ link !! "id" = Some interface
                     ∧ link !! "type" = Some "phy"
                     ∧ link !! "ethernet_mac_address" = Some mac
                     ∧ normalise_mac mac = mac)
  ∧ (∀ e, extract_network_interfaces node = Raised e →
       generate_networking_config node = Raised e)
  ∧ (∀ interfaces,
       extract_network_interfaces node = Returned interfaces →
       get_dns_server_address (nodegroup node) true false
       = Raised UnresolvableHost →
       get_dns_server_address (nodegroup node) false true
       = Raised UnresolvableHost →
       ∃ config, generate_networking_config node = Returned config
                 ∧ services config = []).
Proof.
  unfold generate_networking_config. split; [|split].
  - intros config.
    destruct (extract_network_interfaces node) as [interfaces|e]
      eqn:Hinterfaces; [|done].
    simpl.
    destruct (list_dns_servers node) as [servers|e] eqn:Hservers; [|done].
    simpl. intros [= <-]. simpl.
    split; [done|]. split; [done|]. split; [|split].
    + rewrite length_fmap. revert Hservers. unfold list_dns_servers.
      rewrite !append_dns_server_cases.
      destruct (disable_ipv4 node); simpl; rewrite ?append_dns_server_cases;
        destruct (get_dns_server_address (nodegroup node) true false)
          as [[a4|]|e4];
        destruct (get_dns_server_address (nodegroup node) false true)
          as [[a6|]|e6] eqn:H6;
        simpl; rewrite ?append_dns_server_cases, ?H6;
        repeat case_decide; simpl; rewrite ?append_dns_server_cases, ?H6;
        simpl; repeat case_decide; simpl;
        intros [= <-]; simpl; lia.
    + intros service (server & -> & _)%list_elem_of_fmap.
      unfold generate_dns_server_entry. split; [by simplify_map_eq|].
      eexists. by simplify_map_eq.
    + exists interfaces. split; [done|]. split; [by rewrite length_fmap|].
      intros n interface mac Hn. rewrite list_lookup_fmap, Hn. simpl.
      eexists. split; [done|]. unfold generate_ethernet_link_entry.
      split; [by simplify_map_eq|]. split; [by simplify_map_eq|].
      split; [by simplify_map_eq|].
      assert ((interface, mac) ∈ interfaces) as Hin
        by (by eapply list_elem_of_lookup_2).
      by apply (extract_network_interfaces_macs node interfaces interface).
  - intros e ->. done.
  - intros interfaces -> H4 H6. simpl.
    unfold list_dns_servers. rewrite !append_dns_server_cases.
    destruct (disable_ipv4 node); simpl;
      rewrite ?append_dns_server_cases, ?H4, ?H6; simpl;
      rewrite ?decide_True by done; simpl;
      rewrite ?append_dns_server_cases, ?H6; simpl;
      rewrite ?decide_True by done; simpl; eauto.
Qed.

End preseed.

(** * The further properties at concrete inputs *)

Section examples.
Import pytext networking_preseed preseed_examples.

Example example_node_mappings :
  map_static_ips (netaddr := example_netaddr) example_node
  = Returned example_static_ips
  ∧ map_gateways (netaddr := example_netaddr) example_node
    = Returned example_gateways
  ∧ extract_network_interfaces example_node
    = Returned [("eth0", "aa:bb:cc:dd:ee:ff")].
Proof. repeat split; by vm_compute. Qed.

Lemma listing_needs_resource_root_witness :
  list_boot_images (fresh_process ∅ ∅ (Returned ∅))
  = (Raised (KeyError "tftp"), fresh_process ∅ ∅ (Returned ∅))
  ∧ list_boot_images (fresh_process ∅ ∅ (Returned {[ "tftp" := ∅ ]}))
    = (Raised (KeyError "resource_root"),
       fresh_process ∅ ∅ (Returned {[ "tftp" := ∅ ]})).
Proof.
  split.
  - destruct (listing_needs_resource_root (fresh_process ∅ ∅ (Returned ∅)) ∅
                eq_refl) as [Htftp _].
    apply Htftp. reflexivity.
  - destruct (listing_needs_resource_root
                (fresh_process ∅ ∅ (Returned {[ "tftp" := ∅ ]}))
                {[ "tftp" := ∅ ]} eq_refl) as [_ Hroot].
    apply (Hroot ∅); reflexivity.
Defined.

Lemma at_most_one_job_in_flight_witness :
  reachable (cluster := quiet_cluster)
    (import_boot_images [b_example] None None importing_process).2
  ∧ length (threadpool
              (import_boot_images [b_example] None None importing_process).2)
    ≤ 1.
Proof.
  assert (reachable (cluster := quiet_cluster)
            (import_boot_images [b_example] None None importing_process).2)
    as Hreach.
  { apply reachable_import, reachable_import, reachable_fresh. }
  split; [exact Hreach|].
  apply (at_most_one_job_in_flight (cluster := quiet_cluster) _ Hreach).
Defined.

Lemma burst_schedules_first_call_only_witness :
  lock_locked idle_process = false
  ∧ threadpool
      (foldl (λ st (c : list source * option string * option string),
                (import_boot_images c.1.1 c.1.2 c.2 st).2)
         idle_process
         [([a_example], None, None); ([b_example], None, None);
          ([on_localhost], Some "http://proxy.example:8000", None)])
    = [Job [a_example] None None].
Proof.
  split; [reflexivity|].
  apply (burst_schedules_first_call_only ([a_example], None, None)
           [([b_example], None, None);
            ([on_localhost], Some "http://proxy.example:8000", None)]
           idle_process); reflexivity.
Defined.

Lemma job_runs_engine_in_scoped_environment_witness :
  get_maas_user_gpghome (Collaborators := quiet_cluster)
  = Returned "/var/lib/maas/gnupg"
  ∧ (∃ variables,
       import_variables (cluster := quiet_cluster) "/var/lib/maas/gnupg"
         [a_example] None None = Returned variables
       ∧ (variables ∪ os_environ idle_process) !! "http_proxy"
         = Some "http://squid.internal:3128"
       ∧ fired (job_finishes (cluster := quiet_cluster)
                  (import_boot_images [a_example] None None idle_process).2)
         = [Returned ()])
  ∧ fired (job_finishes (cluster := quiet_cluster)
             (import_boot_images [a_example; open_bracket] None None
                idle_process).2)
    = [Raised ValueError]
  ∧ os_environ (job_finishes (cluster := quiet_cluster)
                  (import_boot_images [a_example; open_bracket] None None
                     idle_process).2)
    = os_environ idle_process.
Proof.
  split; [reflexivity|]. split.
  - destruct (job_runs_engine_in_scoped_environment (cluster := quiet_cluster)
                [a_example] None None idle_process "/var/lib/maas/gnupg")
      as (Hbuilt & Hruns & _); [reflexivity..|].
    destruct (proj2 Hbuilt) as [variables Hvariables].
    { constructor; [|constructor]. exists (Some "a.example"). reflexivity. }
    destruct (Hruns variables Hvariables)
      as (Hfired & _ & _ & _ & Hproxy & _).
    exists variables. split; [exact Hvariables|].
    split; [exact Hproxy | exact Hfired].
  - destruct (job_runs_engine_in_scoped_environment (cluster := quiet_cluster)
                [a_example; open_bracket] None None idle_process
                "/var/lib/maas/gnupg")
      as (_ & _ & Hrejected); [reflexivity..|].
    destruct (Hrejected ValueError) as (_ & Hfired & Henviron & _);
      [reflexivity|].
    split; [exact Hfired | exact Henviron].
Defined.

Lemma hosts_of_appended_sources_witness :
  get_hosts_from_sources (cluster := quiet_cluster) [a_example; on_localhost]
  = Returned ({["a.example"]} ∪ {["localhost"]})
  ∧ get_hosts_from_sources (cluster := quiet_cluster)
      [a_example; open_bracket]
    = Raised ValueError.
Proof.
  destruct (hosts_of_appended_sources (cluster := quiet_cluster)
              [a_example] [on_localhost])
    as (_ & Hunion & _).
  destruct (hosts_of_appended_sources (cluster := quiet_cluster)
              [a_example] [open_bracket])
    as (_ & _ & _ & _ & Hraises & _).
  split.
  - apply (Hunion {["a.example"]} {["localhost"]}); by vm_compute.
  - apply (Hraises {["a.example"]} ValueError); by vm_compute.
Defined.

Lemma normalise_mac_ignores_padding_witness :
  all_chars isspace (" " +:+ tab) = true
  ∧ normalise_mac ((" " +:+ tab) +:+ "AA:BB:CC:DD:EE:FF" +:+ newline)
    = "aa:bb:cc:dd:ee:ff".
Proof.
  split; [reflexivity|].
  rewrite (normalise_mac_ignores_padding (" " +:+ tab) "AA:BB:CC:DD:EE:FF"
             newline); reflexivity.
Defined.

Lemma normalise_mac_ignores_case_witness :
  lower "Aa:bB:CC:dd:EE:ff" = lower "aA:Bb:cc:DD:ee:FF"
  ∧ normalise_mac "Aa:bB:CC:dd:EE:ff" = normalise_mac "aA:Bb:cc:DD:ee:FF".
Proof.
  split; [reflexivity|].
  apply (normalise_mac_ignores_case "Aa:bB:CC:dd:EE:ff" "aA:Bb:cc:DD:ee:FF").
  reflexivity.
Defined.

Lemma compose_udev_rule_injective_witness :
  compose_udev_rule "eth0" "aa:bb:cc:dd:ee:ff"
  = compose_udev_rule ("eth" +:+ "0") ("aa:bb:cc" +:+ ":dd:ee:ff")
  ∧ "eth0" = "eth" +:+ "0"
  ∧ "aa:bb:cc:dd:ee:ff" = "aa:bb:cc" +:+ ":dd:ee:ff".
Proof.
  split; [reflexivity|].
  apply (compose_udev_rule_injective "eth0" "aa:bb:cc:dd:ee:ff"
           ("eth" +:+ "0") ("aa:bb:cc" +:+ ":dd:ee:ff")); reflexivity.
Defined.

Lemma extract_network_interfaces_normalised_witness :
  probed example_node
  = Lshw (Returned [ Element [Some "eth0"] [Some "AA:BB:CC:DD:EE:FF"];
                     Element [] [Some "00:11:22:33:44:55"] ])
  ∧ ∃ interfaces,
      extract_network_interfaces example_node = Returned interfaces
      ∧ interfaces = [("eth0", "aa:bb:cc:dd:ee:ff")].
Proof.
  split; [reflexivity|].
  destruct (extract_network_interfaces_normalised example_node
              [ Element [Some "eth0"] [Some "AA:BB:CC:DD:EE:FF"];
                Element [] [Some "00:11:22:33:44:55"] ] eq_refl)
    as (interfaces & Hret & Heq & _).
  - repeat constructor.
  - exists interfaces. split; [exact Hret|]. rewrite Heq. reflexivity.
Defined.

Lemma extract_network_interfaces_asserts_witness :
  probed twice_named_node
  = Lshw (Returned [ Element [Some "eth0"; Some "vmbr0"]
                       [Some "AA:BB:CC:DD:EE:FF"] ])
  ∧ extract_network_interfaces twice_named_node = Raised AssertionError.
Proof.
  split; [reflexivity|].
  destruct (extract_network_interfaces_asserts twice_named_node
              [ Element [Some "eth0"; Some "vmbr0"]
                  [Some "AA:BB:CC:DD:EE:FF"] ] eq_refl) as [Hraises _].
  apply Hraises. apply Exists_cons_hd. simpl.
  split; [lia|]. split; [lia|]. left. lia.
Defined.

Lemma list_dns_servers_cases_witness :
  disable_ipv4 example_node = true
  ∧ list_dns_servers example_node = Returned []
  ∧ list_dns_servers ipv6_dns_node = Returned ["2001:db8::1"]
  ∧ list_dns_servers ipv4_dns_node = Returned ["10.0.0.2"].
Proof.
  split; [reflexivity|].
  destruct (list_dns_servers_cases example_node) as (_ & Hdisabled & _).
  destruct (list_dns_servers_cases ipv6_dns_node)
    as (_ & _ & _ & _ & Hipv6 & _).
  destruct (list_dns_servers_cases ipv4_dns_node)
    as (_ & _ & _ & _ & _ & Hipv4 & _).
  split; [|split].
  - rewrite (Hdisabled eq_refl). reflexivity.
  - apply (Hipv6 eq_refl (Some "2001:db8::1")); reflexivity.
  - apply (Hipv4 eq_refl (Some "10.0.0.2")); reflexivity.
Defined.

Lemma generate_route_entries_cases_witness :
  generate_route_entries (netaddr := example_netaddr) ipv4_interface
  = Returned []
  ∧ ∀ routes,
      generate_route_entries (netaddr := example_netaddr)
        routed_ipv4_interface = Returned routes →
      length routes ≤ 1.
Proof.
  split.
  - apply (generate_route_entries_cases (netaddr := example_netaddr)
             ipv4_interface). right. reflexivity.
  - intros routes Hroutes.
    by apply (generate_route_entries_cases (netaddr := example_netaddr)
                routed_ipv4_interface).
Defined.

Lemma generate_network_entry_keys_witness :
  ∃ entry,
    generate_network_entry (netaddr := example_netaddr) "eth0"
      ipv6_interface (Some "2001:db8::5") = Returned entry
    ∧ entry !! "type" = Some (Text "ipv6")
    ∧ ¬ is_Some (entry !! "netmask").
Proof.
  eexists. split; [reflexivity|].
  destruct (generate_network_entry_keys (netaddr := example_netaddr) "eth0"
              ipv6_interface (Some "2001:db8::5") _ eq_refl)
    as (_ & Htype & _ & Hnetmask & _).
  split; [exact Htype|]. intros Hsome. by apply Hnetmask in Hsome.
Defined.

Lemma extract_ip_spec_witness :
  (extract_ip (netaddr := example_netaddr) example_static_ips
     "00:11:22:33:44:55" 6).1 = None
  ∧ (extract_ip (netaddr := example_netaddr) example_static_ips
       "00:11:22:33:44:55" 6).2
    = <["00:11:22:33:44:55" := ∅]> example_static_ips.
Proof.
  destruct (extract_ip_spec (netaddr := example_netaddr) example_static_ips
              "00:11:22:33:44:55" 6) as (Hnone & _ & Hadded & _).
  split.
  - apply Hnone. intros a Ha. by apply not_elem_of_empty in Ha.
  - apply Hadded. reflexivity.
Defined.

Lemma add_ip_to_mapping_then_extract_witness :
  ∃ mapping,
    add_ip_to_mapping (netaddr := example_netaddr) ∅ example_mac
      (Some (IPText "2001:db8::5")) = Returned mapping
    ∧ (extract_ip (netaddr := example_netaddr) mapping
         "aa:bb:cc:dd:ee:ff" 6).1 = Some (IP IPv6 5)
    ∧ has_static_ipv6_address (netaddr := example_netaddr) mapping = true.
Proof.
  destruct (add_ip_to_mapping_then_extract (netaddr := example_netaddr)
              ∅ example_mac) as (_ & _ & _ & Hadd).
  destruct (Hadd (IPText "2001:db8::5") (IP IPv6 5))
    as (mapping & Hret & _ & _ & _ & Hfresh & Hv6); [done | reflexivity |].
  exists mapping. split; [exact Hret|]. split.
  - apply Hfresh. intros other Hother. by apply not_elem_of_empty in Hother.
  - apply Hv6. reflexivity.
Defined.

Lemma map_static_ips_spec_witness :
  map_static_ips (netaddr := example_netaddr) example_node
  = Returned example_static_ips
  ∧ IP IPv6 5 ∈ default ∅ (example_static_ips !! "aa:bb:cc:dd:ee:ff").
Proof.
  split; [by vm_compute|].
  apply (map_static_ips_spec (netaddr := example_netaddr) example_node
           example_static_ips); [by vm_compute|].
  exists (StaticIP (Some "2001:db8::5") [example_mac]), example_mac.
  split; [apply list_elem_of_here|]. split; [apply list_elem_of_here|].
  split; [reflexivity|]. exists "2001:db8::5". by split.
Defined.

Lemma map_gateways_spec_witness :
  map_gateways (netaddr := example_netaddr) example_node
  = Returned example_gateways
  ∧ IP IPv6 1 ∈ default ∅ (example_gateways !! "aa:bb:cc:dd:ee:ff").
Proof.
  split; [by vm_compute|].
  apply (map_gateways_spec (netaddr := example_netaddr) example_node
           example_gateways); [by vm_compute|].
  exists example_mac, ipv6_interface.
  split; [apply list_elem_of_here|]. split; [reflexivity|].
  split; [apply list_elem_of_further, list_elem_of_here|].
  split; [reflexivity|]. exists "2001:db8::1". by split.
Defined.

Lemma compose_debian_network_interfaces_file_spec_witness :
  ∃ stanzas,
    debian_stanzas (netaddr := example_netaddr) example_node
    = Returned stanzas
    ∧ length stanzas = 3.
Proof.
  destruct (compose_debian_network_interfaces_file_spec
              (netaddr := example_netaddr) example_node
              example_static_ips example_gateways
              [("eth0", "aa:bb:cc:dd:ee:ff")])
    as (stanzas & Hret & _ & _ & _ & _ & _ & _ & Hlength & _);
    [by vm_compute..|].
  exists stanzas. split; [exact Hret|].
  rewrite Hlength; by vm_compute.
Defined.

Lemma generate_networking_config_spec_witness :
  ∃ config,
    generate_networking_config example_node = Returned config
    ∧ networks config = []
    ∧ length (services config) ≤ 2.
Proof.
  eexists. split; [reflexivity|].
  destruct (generate_networking_config_spec example_node) as (Hconfig & _).
  destruct (Hconfig _ eq_refl) as (_ & Hnetworks & Hservices & _).
  split; assumption.
Defined.

End examples.
